(** * AURAH: the Butcher pipeline (modules/butcher.py)

    A shallow embedding of the three methods of class [Butcher] that make up
    the detection pipeline,

      - [get_coordinates]          (the Decoder),
      - [remove_overlapping_items] (the Suppressor),
      - [extract_image_segments]   (the Extractor),

    together with the Python and NumPy operations they rely on: tuple
    unpacking, subscripting of dynamically typed values, slices, [in] on
    lists and dicts, [np.argmax], [int()].

    Numbers.  The rows of the network output hold floating point numbers.
    A finite float is the rational [Q] it stands for; comparisons and
    [int()] are exact on it, and an arithmetic operation gives the exact
    result rounded to the format, by a rounding function [rnd] that the
    statements leave open.  NaN and infinities are not modelled. *)

From Stdlib Require Import ZArith QArith Qround Lia String.
From stdpp Require Import base list sorting.
From Equations Require Import Equations.

Set Warnings "-register-all".
Local Open Scope Z_scope.

(** ** Python exceptions and fallible computations *)

Inductive error : Type :=
  | ValueError   (* unpacking of the wrong arity, argmax of an empty sequence *)
  | TypeError    (* subscripting a number, a value of the wrong kind *)
  | IndexError   (* subscript out of range *)
  | CvError.     (* cv2.error: a failed assertion of an OpenCV routine *)

Inductive result (A : Type) : Type :=
  | Ok (a : A)
  | Err (e : error).
Arguments Ok {A} a.
Arguments Err {A} e.

#[global] Instance result_ret : MRet result := fun A a => Ok a.
#[global] Instance result_bind : MBind result := fun A B f m =>
  match m with
  | Ok a => f a
  | Err e => Err e
  end.

(** A [for] loop that threads a state and stops at the first exception. *)
Fixpoint foldM {S A : Type} (body : S -> A -> result S) (s : S) (l : list A)
  : result S :=
  match l with
  | [] => Ok s
  | a :: l' => s' ← body s a; foldM body s' l'
  end.

(** A list comprehension whose element expression may raise. *)
Fixpoint traverse {A B : Type} (f : A -> result B) (l : list A)
  : result (list B) :=
  match l with
  | [] => Ok []
  | a :: l' => b ← f a; bs ← traverse f l'; Ok (b :: bs)
  end.

(** ** Dynamically typed values

    An item of a [DataPack] list is whatever the producer appended to it; the
    consumers subscript it without checking.  [VTuple] stands for a Python
    tuple, [VInt] for an [int], [VFloat] for a float. *)

Inductive value : Type :=
  | VInt (z : Z)
  | VFloat (q : Q)
  | VTuple (items : list value).

(** [v[i]] for a constant, non-negative subscript [i]. *)
Definition getitem (v : value) (i : nat) : result value :=
  match v with
  | VTuple items =>
      match items !! i with
      | Some x => Ok x
      | None => Err IndexError
      end
  | VInt _ | VFloat _ => Err TypeError
  end.

(** ** resources/ids.py *)

Inductive IDs : Type :=
  | ARMS | BODY | CHEST | EYES | FEET | HANDS | HEAD | LEGS | MOUTH | NOSE
  | PERSON.

Definition IDs_value (i : IDs) : Z :=
  match i with
  | ARMS => 0 | BODY => 1 | CHEST => 2 | EYES => 3 | FEET => 4 | HANDS => 5
  | HEAD => 6 | LEGS => 7 | MOUTH => 8 | NOSE => 9 | PERSON => 14
  end.

(** ** Dicts (resources/custom_typing.py: [DataPack = Dict[K, List[V]]])

    A Python dict keeps its keys in insertion order, so a [DataPack] is an
    association list from keys to lists of items, each key at most once. *)

Definition DataPack (K : Type) : Type := list (K * list value).

Section Dict.
Context {K : Type} (eqb : K -> K -> bool).

(** [k in d] *)
Fixpoint dict_mem (k : K) (d : DataPack K) : bool :=
  match d with
  | [] => false
  | (k', _) :: d' => eqb k k' || dict_mem k d'
  end.

(** [d[k] = v]: rebinds an existing key in place, appends a new one. *)
Fixpoint dict_set (d : DataPack K) (k : K) (v : list value) : DataPack K :=
  match d with
  | [] => [(k, v)]
  | (k', v') :: d' =>
      if eqb k k' then (k', v) :: d' else (k', v') :: dict_set d' k v
  end.

(** [d[k].append(x)].  The one caller creates the key first, so the
    missing-key case (a Python [KeyError]) is never reached; the dict is
    then returned as it is. *)
Fixpoint dict_append (d : DataPack K) (k : K) (x : value) : DataPack K :=
  match d with
  | [] => []
  | (k', v') :: d' =>
      if eqb k k' then (k', v' ++ [x]) :: d' else (k', v') :: dict_append d' k x
  end.
End Dict.

(** ** The Decoder: [Butcher.get_coordinates] *)

(** What a caller may pass as [keys]: one scalar or a list of scalars.  A
    scalar is an integer, a member of [IDs], or a string. *)
Inductive key : Type :=
  | KInt (z : Z)
  | KId (i : IDs)
  | KStr (s : string).

Inductive keys_arg : Type :=
  | OneKey (k : key)            (* [not isinstance(keys, list)] *)
  | KeyList (ks : list key).    (* [isinstance(keys, list)] *)

(** [single_key == k] for the NumPy integer [single_key].  [IDs] is a plain
    [Enum], whose members compare unequal to every integer. *)
Definition np_int_eq (single_key : Z) (k : key) : bool :=
  match k with
  | KInt z => single_key =? z
  | KId _ | KStr _ => false
  end.

(** [single_key in keys] *)
Definition key_in (single_key : Z) (keys : list key) : bool :=
  existsb (np_int_eq single_key) keys.

(** [a, b = t] *)
Definition unpack2 {A : Type} (t : list A) : result (A * A) :=
  match t with
  | [a; b] => Ok (a, b)
  | _ => Err ValueError
  end.

Definition Qltb (a b : Q) : bool :=
  match Qcompare a b with
  | Lt => true
  | _ => false
  end.

(** [np.argmax]: one pass from the left, the running maximum replaced only
    by a strictly greater entry; an empty sequence is a [ValueError]. *)
Fixpoint argmax_scan (best_i : nat) (best : Q) (i : nat) (l : list Q) : nat :=
  match l with
  | [] => best_i
  | x :: l' =>
      if Qltb best x then argmax_scan i x (S i) l'
      else argmax_scan best_i best (S i) l'
  end.

Definition argmax (l : list Q) : result nat :=
  match l with
  | [] => Err ValueError
  | x :: l' => Ok (argmax_scan 0%nat x 1%nat l')
  end.

(** [a[i]] on a row of numbers. *)
Definition row_get (a : list Q) (i : nat) : result Q :=
  match a !! i with
  | Some x => Ok x
  | None => Err IndexError
  end.

(** [int(x)]: truncation toward zero. *)
Definition int_ (x : Q) : Z := Z.quot (Qnum x) (Zpos (Qden x)).

(** [detection[5:]] *)
Definition scores_of (detection : list Q) : list Q := drop 5 detection.

(** *** Float arithmetic

    Every float operation of the loop body returns the exact result rounded
    to the float format.  [rnd] is that rounding. *)
Class Rounding : Type := { rnd : Q -> Q }.

Definition fmul `{Rounding} (a b : Q) : Q := rnd (a * b).
Definition fdiv `{Rounding} (a b : Q) : Q := rnd (a / b).
Definition fsub `{Rounding} (a b : Q) : Q := rnd (a - b).
Definition fadd `{Rounding} (a b : Q) : Q := rnd (a + b).

(** Arithmetic without rounding error.  On the sample rows below, whose
    fields and image sizes are small dyadic numbers, the float operations
    are exact and agree with it. *)
#[global] Instance exact : Rounding := {| rnd := fun q => q |}.

(** The four float locals of the loop body (lines 151-154). *)
Definition row_w `{Rounding} (img_width : Q) (detection : list Q) : result Q :=
  d2 ← row_get detection 2; Ok (fmul d2 img_width).
Definition row_h `{Rounding} (img_height : Q) (detection : list Q) : result Q :=
  d3 ← row_get detection 3; Ok (fmul d3 img_height).
Definition row_x `{Rounding} (img_width : Q) (detection : list Q) : result Q :=
  w ← row_w img_width detection;
  d0 ← row_get detection 0; Ok (fsub (fmul d0 img_width) (fdiv w 2)).
Definition row_y `{Rounding} (img_height : Q) (detection : list Q) : result Q :=
  h ← row_h img_height detection;
  d1 ← row_get detection 1; Ok (fsub (fmul d1 img_height) (fdiv h 2)).

(** The tuple [data] of lines 156-159: five fields, all at the top level. *)
Definition make_data `{Rounding} (x w y h score : Q) : value :=
  VTuple [VInt (int_ x); VInt (int_ (fadd x w)); VInt (int_ y);
          VInt (int_ (fadd y h)); VFloat score].

(** Lines 148-149: [if single_key not in fridge: fridge[single_key] = []]. *)
Definition ensure_bucket (fridge : DataPack Z) (single_key : Z) : DataPack Z :=
  if dict_mem Z.eqb single_key fridge then fridge
  else dict_set Z.eqb fridge single_key [].

(** The body of the inner loop (lines 143-160) for one row [detection]. *)
Definition decode_row `{Rounding} (img_height img_width : Q) (keys : list key)
    (fridge : DataPack Z) (detection : list Q) : result (DataPack Z) :=
  let scores := scores_of detection in
  i ← argmax scores;
  let single_key := Z.of_nat i in
  score ← row_get scores i;
  if key_in single_key keys then
    let fridge := ensure_bucket fridge single_key in
    w ← row_w img_width detection;
    h ← row_h img_height detection;
    x ← row_x img_width detection;
    y ← row_y img_height detection;
    Ok (dict_append Z.eqb fridge single_key (make_data x w y h score))
  else Ok fridge.

(** [get_coordinates] with the right-hand side of line 136 left open: [dims]
    is the tuple that is unpacked into [img_height, img_width]. *)
Definition get_coordinates_with `{Rounding} (dims : list Q)
    (output_data : list (list (list Q))) (keys : keys_arg)
  : result (DataPack Z) :=
  let fridge : DataPack Z := [] in
  '(img_height, img_width) ← unpack2 dims;
  let keys :=
    match keys with
    | OneKey k => [k]
    | KeyList ks => ks
    end in
  foldM (fun fridge detections =>
           foldM (decode_row img_height img_width keys) fridge detections)
        fridge output_data.

(** The method as written: line 136 unpacks the empty tuple [()]. *)
Definition get_coordinates `{Rounding} (output_data : list (list (list Q)))
    (keys : keys_arg) : result (DataPack Z) :=
  get_coordinates_with [] output_data keys.

(** ** The Suppressor: [Butcher.remove_overlapping_items] *)

(** A box in pixel space: x-min, x-max, y-min, y-max. *)
Record box : Type := Box { x_min : Z; x_max : Z; y_min : Z; y_max : Z }.

(** How the suppression routine reads its two argument lists: a box is a
    sequence of four integers, a score is a number. *)
Definition as_box (v : value) : result box :=
  match v with
  | VTuple [VInt a; VInt b; VInt c; VInt d] => Ok (Box a b c d)
  | _ => Err TypeError
  end.

Definition as_float (v : value) : result Q :=
  match v with
  | VFloat q => Ok q
  | VInt z => Ok (inject_Z z)
  | VTuple _ => Err TypeError
  end.

Definition area (a : box) : Z :=
  Z.max 0 (x_max a - x_min a) * Z.max 0 (y_max a - y_min a).

Definition intersection_area (a b : box) : Z :=
  Z.max 0 (Z.min (x_max a) (x_max b) - Z.max (x_min a) (x_min b))
  * Z.max 0 (Z.min (y_max a) (y_max b) - Z.max (y_min a) (y_min b)).

(** Intersection-over-union; a zero-area box overlaps nothing. *)
Definition iou (a b : box) : Q :=
  if (area a =? 0) || (area b =? 0) then 0%Q
  else
    (inject_Z (intersection_area a b)
     / inject_Z (area a + area b - intersection_area a b))%Q.

(** A candidate inside the routine: its position in the argument lists, its
    box and its score. *)
Definition cand : Type := nat * (box * Q).
Definition cand_box (c : cand) : box := fst (snd c).
Definition cand_score (c : cand) : Q := snd (snd c).

(** Step 1: a candidate is discarded when its score is below the threshold. *)
Definition eligible (score_threshold : Q) (c : cand) : bool :=
  negb (Qltb (cand_score c) score_threshold).

(** Step 2: stable sort by score, descending.  [c] comes before everything
    in [l] in the original order, so it goes in front of the first entry
    whose score is not greater than its own. *)
Fixpoint insert_desc (c : cand) (l : list cand) : list cand :=
  match l with
  | [] => [c]
  | d :: l' =>
      if Qltb (cand_score c) (cand_score d) then d :: insert_desc c l'
      else c :: l
  end.

Definition sort_desc (l : list cand) : list cand := foldr insert_desc [] l.

(** An entry survives the selection of [c] unless its overlap with [c]
    exceeds the threshold. *)
Definition survives (overlap_threshold : Q) (c r : cand) : bool :=
  negb (Qltb overlap_threshold (iou (cand_box c) (cand_box r))).

(** Step 3: take the first remaining candidate, keep it, drop the remaining
    ones that overlap it too much, repeat. *)
Equations? greedy (overlap_threshold : Q) (l : list cand) : list cand
  by wf (length l) lt :=
greedy overlap_threshold [] := [];
greedy overlap_threshold (c :: rest) :=
  c :: greedy overlap_threshold (List.filter (survives overlap_threshold c) rest).
Proof.
  pose proof (List.filter_length_le (survives overlap_threshold c) rest).
  simpl. lia.
Qed.

(** Steps 1-4 on parsed candidates; the result lists positions, in the order
    of selection. *)
Definition nms_indices (cs : list (box * Q))
    (score_threshold nms_threshold : Q) : list nat :=
  let numbered := combine (seq 0 (length cs)) cs in
  map fst
    (greedy nms_threshold
       (sort_desc (List.filter (eligible score_threshold) numbered))).

(** The routine asserts that neither threshold is negative. *)
Definition thresholds_ok (score_threshold nms_threshold : Q) : bool :=
  negb (Qltb score_threshold 0) && negb (Qltb nms_threshold 0).

(** Modelled from the spec: [cv2.dnn.NMSBoxes] is a routine of the OpenCV
    library and its code is not part of the repository.  The model is the
    greedy algorithm of section 4.2 of the specification (discard below the
    score threshold, stable sort by confidence descending, greedy selection,
    output in selection order, intersection-over-union on box geometry),
    applied to the two lists the method passes.  Once its arguments are
    read, the library routine asserts that both thresholds are non-negative
    and raises [cv2.error] otherwise; a threshold above 1 is accepted. *)
Definition NMSBoxes (bboxes scores : list value)
    (score_threshold nms_threshold : Q) : result (list nat) :=
  bs ← traverse as_box bboxes;
  ss ← traverse as_float scores;
  if thresholds_ok score_threshold nms_threshold then
    Ok (nms_indices (combine bs ss) score_threshold nms_threshold)
  else Err CvError.

(** [l[i]] on a Python list, for a non-negative [i]. *)
Definition list_get (l : list value) (i : nat) : result value :=
  match l !! i with
  | Some x => Ok x
  | None => Err IndexError
  end.

(** Lines 102-110 for the list [all_data] of one key: the two argument lists
    are built and handed to the suppression routine with both thresholds as
    they came in. *)
Definition row_indexes (nms_threshold score_threshold : Q)
    (all_data : list value) : result (list nat) :=
  coordinates ← traverse (fun x => getitem x 0) all_data;
  scores ← traverse (fun x => getitem x 1) all_data;
  NMSBoxes coordinates scores score_threshold nms_threshold.

(** The body of the loop (lines 101-111); the result is the list the key is
    rebound to. *)
Definition suppress_row (nms_threshold score_threshold : Q)
    (all_data : list value) : result (list value) :=
  indexes ← row_indexes nms_threshold score_threshold all_data;
  traverse (fun x => list_get all_data x) indexes.

(** The loop visits every key of the dict once, in insertion order, and
    rebinds that key to the filtered list; no key is added or removed. *)
Definition remove_overlapping_items {K : Type} (data_pack : DataPack K)
    (nms_threshold score_threshold : Q) : result (DataPack K) :=
  traverse (fun '(row, all_data) =>
              kept ← suppress_row nms_threshold score_threshold all_data;
              Ok (row, kept))
           data_pack.

(** The defaults of the signature. *)
Definition default_nms_threshold : Q := 3 # 10.
Definition default_score_threshold : Q := 1 # 2.

(** ** The Extractor: [Butcher.extract_image_segments] *)

(** An image is an array of rows of pixels, a pixel three channel values. *)
Definition pixel : Type := Z * Z * Z.
Definition image : Type := list (list pixel).

(** Python's adjustment of one bound of a slice over a sequence of length
    [n]: a negative bound counts from the end, and the result is brought
    into [0, n]. *)
Definition slice_bound (n i : Z) : Z :=
  if i <? 0 then Z.max (i + n) 0 else Z.min i n.

(** [l[lo:hi]] *)
Definition py_slice {A : Type} (l : list A) (lo hi : Z) : list A :=
  let n := Z.of_nat (length l) in
  let start := slice_bound n lo in
  let stop := slice_bound n hi in
  take (Z.to_nat (stop - start)) (drop (Z.to_nat start) l).

(** [image[y0:y1, x0:x1]] *)
Definition crop (img : image) (y0 y1 x0 x1 : Z) : image :=
  map (fun row => py_slice row x0 x1) (py_slice img y0 y1).

(** A bound of a slice has to be an integer. *)
Definition as_int (v : value) : result Z :=
  match v with
  | VInt z => Ok z
  | VFloat _ | VTuple _ => Err TypeError
  end.

(** An array without a single pixel: no rows, or rows of no pixels. *)
Definition is_empty (src : image) : bool :=
  match concat src with
  | [] => true
  | _ :: _ => false
  end.

(** From blue, green, red to red, green, blue, pixel by pixel. *)
Definition swap_channels (src : image) : image :=
  map (map (fun p : pixel => let '(b, g, r) := p in (r, g, b))) src.

(** Modelled from the spec: [cv2.cvtColor] is a routine of the OpenCV
    library and its code is not part of the repository.  Section 4.3 of the
    specification: the crop is converted from the native channel order of
    the image (blue, green, red) to the canonical one (red, green, blue).
    The library routine asserts that its source is not empty and raises
    [cv2.error] otherwise. *)
Definition cvtColor_BGR2RGB (src : image) : result image :=
  if is_empty src then Err CvError else Ok (swap_channels src).

(** The body of the inner loop (lines 190-199) for one item [data]: the
    four bounds are read first, the slices then need them to be integers,
    rows first. *)
Definition extract_segment (img : image) (data : value) : result image :=
  zone ← getitem data 0;
  b2 ← getitem zone 2;
  b3 ← getitem zone 3;
  b0 ← getitem zone 0;
  b1 ← getitem zone 1;
  y0 ← as_int b2;
  y1 ← as_int b3;
  x0 ← as_int b0;
  x1 ← as_int b1;
  cvtColor_BGR2RGB (crop img y0 y1 x0 x1).

(** Every key of [data_pack] becomes a key of the new dict, bound to the
    list of the segments of its items, in order. *)
Definition extract_image_segments {K : Type} (img : image)
    (data_pack : DataPack K) : result (list (K * list image)) :=
  traverse (fun '(key, items) =>
              segments ← traverse (extract_segment img) items;
              Ok (key, segments))
           data_pack.

(** *** The Extractor in the words of the specification

    Section 4.3 describes the crop as the intersection of the box with the
    image rectangle, each axis clamped to [0, dimension). *)
Definition clamp (n i : Z) : Z := Z.max 0 (Z.min i n).

Definition clamped_slice {A : Type} (l : list A) (lo hi : Z) : list A :=
  let n := Z.of_nat (length l) in
  take (Z.to_nat (clamp n hi - clamp n lo)) (drop (Z.to_nat (clamp n lo)) l).

Definition clamped_crop (img : image) (b : box) : image :=
  map (fun row => clamped_slice row (x_min b) (x_max b))
      (clamped_slice img (y_min b) (y_max b)).

(** The item of a candidate in the documented shape
    [Tuple[ZoneInt, float]]: the box first, the confidence second. *)
Definition candidate (b : box) (confidence : Q) : value :=
  VTuple [VTuple [VInt (x_min b); VInt (x_max b); VInt (y_min b); VInt (y_max b)];
          VFloat confidence].

(** A blank image of the given size. *)
Definition blank (height width : nat) : image :=
  replicate height (replicate width (0, 0, 0)).

Definition scenarioA : DataPack IDs :=
  [(HEAD, [candidate (Box 10 50 10 50) (9 # 10);
           candidate (Box 12 52 12 52) (8 # 10)])].

(** *** Sample rows

    A row in which categories 0 and 1 tie for the highest score. *)
Definition tie_row : list Q :=
  [1 # 2; 1 # 2; 1 # 4; 1 # 4; 1 # 1; 7 # 10; 7 # 10; 1 # 5]%Q.

(** A row whose fifth field is larger than every score that follows it. *)
Definition objectness_row : list Q :=
  [1 # 2; 1 # 2; 1 # 4; 1 # 4; 9 # 10; 1 # 10; 8 # 10]%Q.

(** A row that, on a 4x4 image, has its left and top edge at 1/2 and a width
    and height of 1/2. *)
Definition half_pixel_row : list Q :=
  [3 # 16; 3 # 16; 1 # 8; 1 # 8; 9 # 10; 7 # 10]%Q.

(** An item in the documented shape [Tuple[ZoneInt, float]]: the first field
    a sequence of four integers, the second a number. *)
Definition well_shaped (x : value) : bool :=
  match x with
  | VTuple (VTuple [VInt _; VInt _; VInt _; VInt _] :: (VFloat _ | VInt _) :: _) =>
      true
  | _ => false
  end.

Definition well_shaped_pack {K : Type} (data_pack : DataPack K) : bool :=
  forallb (fun entry => forallb well_shaped (snd entry)) data_pack.

(** Scenario A with a third candidate, listed first, that has the lowest
    confidence and overlaps neither of the other two. *)
Definition scenarioA' : DataPack IDs :=
  [(HEAD, [candidate (Box 60 90 60 90) (6 # 10);
           candidate (Box 10 50 10 50) (9 # 10);
           candidate (Box 12 52 12 52) (8 # 10)]);
   (ARMS, [candidate (Box 0 10 0 10) (1 # 10)])].

(** What the suppression routine makes of one item, field by field; used to
    state facts about [suppress_row], which reads the fields list by list. *)
Definition parse_item (x : value) : result (box * Q) :=
  c ← getitem x 0;
  s ← getitem x 1;
  b ← as_box c;
  q ← as_float s;
  Ok (b, q).

(** A list of parsed candidates on which the routine has nothing left to do:
    every score is eligible, the scores descend, and no candidate overlaps
    an earlier one by more than the threshold. *)
Definition settled (score_threshold nms_threshold : Q) (ps : list (box * Q)) : Prop :=
  Forall (fun p => Qltb (snd p) score_threshold = false) ps
  /\ StronglySorted (fun p q => (snd q <= snd p)%Q) ps
  /\ StronglySorted (fun p q => Qltb nms_threshold (iou (fst p) (fst q)) = false) ps.

(** ** Further definitions used to state properties of the three methods *)


(** What the loop body of [get_coordinates] computes from one row before it
    looks at [keys]: the category [single_key] and the tuple [data]. *)
Definition row_item `{Rounding} (img_height img_width : Q) (detection : list Q)
  : result (Z * value) :=
  let scores := scores_of detection in
  i ← argmax scores;
  score ← row_get scores i;
  w ← row_w img_width detection;
  h ← row_h img_height detection;
  x ← row_x img_width detection;
  y ← row_y img_height detection;
  Ok (Z.of_nat i, make_data x w y h score).


(** The list of [keys] after line 139. *)
Definition key_list (keys : keys_arg) : list key :=
  match keys with
  | OneKey k => [k]
  | KeyList ks => ks
  end.

(** A key that a NumPy integer can be equal to. *)
Definition is_int_key (k : key) : bool :=
  match k with
  | KInt _ => true
  | KId _ | KStr _ => false
  end.

(** A tensor with one long enough row and one row of five fields. *)
Definition short_row_output : list (list (list Q)) :=
  [[tie_row; [1 # 2; 1 # 2; 1 # 4; 1 # 4; 9 # 10]%Q]].

(** Two tensors of two rows each. *)
Definition two_tensors : list (list (list Q)) :=
  [[tie_row; objectness_row]; [half_pixel_row; tie_row]].

(** What the scan keeps true of the dict it builds: distinct keys, all of
    them asked for, none bound to an empty list. *)
Definition fridge_ok (keys : list key) (fridge : DataPack Z) : Prop :=
  NoDup (map fst fridge)
  /\ Forall (fun entry => key_in (fst entry) keys = true /\ snd entry <> []) fridge.

(** What the scan makes of [two_tensors] on a 100x100 image when categories
    0 and 1 are asked for. *)
Definition two_tensors_result : DataPack Z :=
  [(0, [VTuple [VInt 37; VInt 62; VInt 37; VInt 62; VFloat (7 # 10)];
        VTuple [VInt 12; VInt 25; VInt 12; VInt 25; VFloat (7 # 10)];
        VTuple [VInt 37; VInt 62; VInt 37; VInt 62; VFloat (7 # 10)]]);
   (1, [VTuple [VInt 37; VInt 62; VInt 37; VInt 62; VFloat (8 # 10)]])].

(** An item that can be subscripted with 0 and 1. *)
Definition has_two_fields (x : value) : bool :=
  match x with
  | VTuple (_ :: _ :: _) => true
  | _ => false
  end.

(** A Detection set whose second key holds an item with a single field. *)
Definition one_field_pack : DataPack IDs :=
  [(HEAD, [candidate (Box 10 50 10 50) (9 # 10)]);
   (ARMS, [VTuple [VTuple [VInt 0; VInt 10; VInt 0; VInt 10]]])].

(** An image all of whose rows have [width] pixels. *)
Definition rectangular (img : image) (width : nat) : Prop :=
  Forall (fun row => length row = width) img.

(** An image whose pixel at row [r] and column [c] holds [(r, c, 0)]. *)
Definition gradient (height width : nat) : image :=
  map (fun r => map (fun c => (Z.of_nat r, Z.of_nat c, 0)) (seq 0 width))
      (seq 0 height).

(** * Properties *)

(** ** Comparisons of rationals *)

Lemma Qltb_true (a b : Q) : Qltb a b = true <-> (a < b)%Q.
Proof.
  unfold Qltb. rewrite Qlt_alt.
  destruct (a ?= b)%Q; split; congruence.
Qed.

Lemma Qltb_false (a b : Q) : Qltb a b = false <-> (b <= a)%Q.
Proof.
  split.
  - intros E. apply Qnot_lt_le. intros L. apply Qltb_true in L. congruence.
  - intros L. destruct (Qltb a b) eqn:E; [|done].
    apply Qltb_true in E. exfalso. apply (Qlt_not_le _ _ E L).
Qed.

(** ** The result monad and its two loops *)

Lemma traverse_Ok {A B : Type} (f : A -> result B) (l : list A) (out : list B) :
  traverse f l = Ok out <-> Forall2 (fun a b => f a = Ok b) l out.
Proof.
  revert out. induction l as [|a l IH]; intros out; simpl.
  - split.
    + intros [= <-]. constructor.
    + intros E. inversion E. done.
  - split.
    + destruct (f a) as [b|e] eqn:Ef; simpl; [|done].
      destruct (traverse f l) as [bs|e] eqn:Et; simpl; [|done].
      intros [= <-]. constructor; [done|]. by apply IH.
    + intros E. inversion E as [|? b ? bs Ef Ebs]; subst.
      rewrite Ef. simpl. apply IH in Ebs. rewrite Ebs. done.
Qed.

Lemma traverse_length {A B : Type} (f : A -> result B) l out :
  traverse f l = Ok out -> length out = length l.
Proof. rewrite traverse_Ok. intros E. symmetry. by eapply Forall2_length. Qed.

(** ** The Decoder *)

Lemma argmax_scan_spec (l : list Q) :
  forall (pre : list Q) (best_i : nat) (best : Q),
    pre !! best_i = Some best ->
    (forall j s, pre !! j = Some s -> (s <= best)%Q) ->
    (forall j s, (j < best_i)%nat -> pre !! j = Some s -> (s < best)%Q) ->
    exists score,
      (pre ++ l) !! argmax_scan best_i best (length pre) l = Some score
      /\ (forall j s, (pre ++ l) !! j = Some s -> (s <= score)%Q)
      /\ (forall j s, (j < argmax_scan best_i best (length pre) l)%nat ->
                      (pre ++ l) !! j = Some s -> (s < score)%Q).
Proof.
  induction l as [|x l IH]; intros pre best_i best Hb Hle Hlt; simpl.
  - rewrite app_nil_r. eauto.
  - replace (pre ++ x :: l) with ((pre ++ [x]) ++ l) by (by rewrite <- app_assoc).
    replace (S (length pre)) with (length (pre ++ [x]))
      by (rewrite length_app; simpl; lia).
    assert (Hpre : forall j s, (pre ++ [x]) !! j = Some s ->
                     pre !! j = Some s \/ (j = length pre /\ s = x)).
    { intros j s E. apply lookup_app_Some in E as [E|[Hj E]]; [by left|right].
      destruct (j - length pre)%nat as [|n] eqn:En; simpl in E; [|done].
      split; [lia|congruence]. }
    destruct (Qltb best x) eqn:E.
    + apply Qltb_true in E. apply IH.
      * rewrite lookup_app_r by lia. by rewrite Nat.sub_diag.
      * intros j s Hj. destruct (Hpre j s Hj) as [Hj'|[_ ->]].
        -- apply Qlt_le_weak. eapply Qle_lt_trans; [by eapply Hle|done].
        -- apply Qle_refl.
      * intros j s Hlen Hj. destruct (Hpre j s Hj) as [Hj'|[-> _]]; [|lia].
        eapply Qle_lt_trans; [by eapply Hle|done].
    + apply Qltb_false in E. apply IH.
      * apply lookup_app_l_Some. done.
      * intros j s Hj. destruct (Hpre j s Hj) as [Hj'|[_ ->]]; [by eapply Hle|done].
      * intros j s Hlen Hj. destruct (Hpre j s Hj) as [Hj'|[-> _]].
        -- by eapply Hlt.
        -- apply lookup_lt_Some in Hb. lia.
Qed.

Lemma argmax_spec (x : Q) (l : list Q) :
  exists i score,
    argmax (x :: l) = Ok i
    /\ (x :: l) !! i = Some score
    /\ (forall j s, (x :: l) !! j = Some s -> (s <= score)%Q)
    /\ (forall j s, (j < i)%nat -> (x :: l) !! j = Some s -> (s < score)%Q).
Proof.
  destruct (argmax_scan_spec l [x] 0%nat x) as (score & H1 & H2 & H3).
  - done.
  - intros [|j] s; simpl; [intros [= ->]; apply Qle_refl|done].
  - intros j s Hj. lia.
  - exists (argmax_scan 0 x 1 l), score. simpl in *. done.
Qed.

(** The loop body on a row that has a score vector, written out. *)
Lemma decode_row_unfold {fl : Rounding} (H W : Q) keys fridge (cx cy wn hn obj s0 : Q) rest :
  decode_row H W keys fridge (cx :: cy :: wn :: hn :: obj :: s0 :: rest) =
  let i := argmax_scan 0%nat s0 1%nat rest in
  match (s0 :: rest) !! i with
  | Some score =>
      if key_in (Z.of_nat i) keys then
        Ok (dict_append Z.eqb (ensure_bucket fridge (Z.of_nat i)) (Z.of_nat i)
              (make_data (fsub (fmul cx W) (fdiv (fmul wn W) 2)) (fmul wn W)
                         (fsub (fmul cy H) (fdiv (fmul hn H) 2)) (fmul hn H)
                         score))
      else Ok fridge
  | None => Err IndexError
  end.
Proof.
  unfold decode_row, scores_of, row_get. cbn.
  destruct ((s0 :: rest) !! argmax_scan 0%nat s0 1%nat rest); cbn; [|done].
  destruct (key_in _ keys); done.
Qed.

Lemma int_nonneg (q : Q) : (0 <= q)%Q -> int_ q = Qfloor q.
Proof.
  destruct q as [n d]. unfold Qle, int_, Qfloor. simpl. intros Hn.
  apply Z.quot_div_nonneg; lia.
Qed.

Lemma int_nonpos (q : Q) : (q <= 0)%Q -> int_ q = Qceiling q.
Proof.
  destruct q as [n d]. unfold Qle, int_, Qceiling, Qfloor. simpl. intros Hn.
  replace n with (- - n) at 1 by lia.
  rewrite Z.quot_opp_l by lia. f_equal.
  apply Z.quot_div_nonneg; lia.
Qed.

(** C2, at the failing input.  Whatever rows and keys it is given, and so
    for an empty sequence of rows as well, [get_coordinates] raises
    [ValueError] at line 136, where the empty tuple is unpacked into
    [img_height, img_width]; no empty Detection set is returned. *)
Theorem get_coordinates_raises {fl : Rounding} (output_data : list (list (list Q)))
    (keys : keys_arg) :
  get_coordinates output_data keys = Err ValueError
  /\ get_coordinates [] keys <> Ok [].
Proof. split; [reflexivity|discriminate]. Qed.

(** With an image size to unpack, the same body returns the empty set on an
    empty sequence of rows. *)
Lemma get_coordinates_with_empty {fl : Rounding} (H W : Q) (keys : keys_arg) :
  get_coordinates_with [H; W] [] keys = Ok [].
Proof. reflexivity. Qed.

(** C10.  A key that is not a list is wrapped into a one-element list before
    the rows are scanned: the call with the single key [k] and the call with
    the list [[k]] give the same outcome, for the method as written and for
    its body run on any tuple of image dimensions. *)
Theorem single_key_is_singleton_list {fl : Rounding} (k : key) (output_data : list (list (list Q))) :
  get_coordinates output_data (OneKey k) = get_coordinates output_data (KeyList [k])
  /\ forall dims : list Q,
       get_coordinates_with dims output_data (OneKey k)
       = get_coordinates_with dims output_data (KeyList [k]).
Proof. split; [|intros dims]; reflexivity. Qed.

(** C6.  On a row that has a score vector, the category chosen is an index
    of a maximum of the score vector, every entry before it is strictly
    smaller (the first maximum wins a tie), and the confidence stored with
    the appended item is the score at that index. *)
Theorem best_category_is_first_maximum {fl : Rounding} (H W : Q) (keys : list key)
    (fridge : DataPack Z) (detection : list Q) :
  scores_of detection <> [] ->
  exists (i : nat) (score : Q),
    argmax (scores_of detection) = Ok i
    /\ scores_of detection !! i = Some score
    /\ (forall j s, scores_of detection !! j = Some s -> (s <= score)%Q)
    /\ (forall j s, (j < i)%nat -> scores_of detection !! j = Some s -> (s < score)%Q)
    /\ (key_in (Z.of_nat i) keys = false ->
        decode_row H W keys fridge detection = Ok fridge)
    /\ (key_in (Z.of_nat i) keys = true ->
        exists a b c d : Z,
          decode_row H W keys fridge detection
          = Ok (dict_append Z.eqb (ensure_bucket fridge (Z.of_nat i)) (Z.of_nat i)
                  (VTuple [VInt a; VInt b; VInt c; VInt d; VFloat score]))).
Proof.
  intros Hs.
  destruct detection as [|cx [|cy [|wn [|hn [|obj [|s0 rest]]]]]]; try done.
  destruct (argmax_spec s0 rest) as (i & score & Ha & Hi & Hmax & Hfirst).
  exists i, score. unfold scores_of. simpl drop.
  repeat split; try done.
  - intros Hk. rewrite decode_row_unfold. cbn zeta.
    injection Ha as <-. rewrite Hi, Hk. done.
  - intros Hk. rewrite decode_row_unfold. cbn zeta.
    injection Ha as <-. rewrite Hi, Hk. unfold make_data. eauto.
Qed.

(** The theorem on [tie_row], where categories 0 and 1 share the top score. *)
Lemma best_category_is_first_maximum_witness :
  exists (i : nat) (score : Q),
    argmax (scores_of tie_row) = Ok i
    /\ scores_of tie_row !! i = Some score
    /\ (forall j s, scores_of tie_row !! j = Some s
                    -> (s <= score)%Q)
    /\ (forall j s, (j < i)%nat ->
                    scores_of tie_row !! j = Some s
                    -> (s < score)%Q)
    /\ (key_in (Z.of_nat i) [KInt 0] = false ->
        decode_row 100 100 [KInt 0] [] tie_row = Ok [])
    /\ (key_in (Z.of_nat i) [KInt 0] = true ->
        exists a b c d : Z,
          decode_row 100 100 [KInt 0] [] tie_row
          = Ok (dict_append Z.eqb (ensure_bucket [] (Z.of_nat i)) (Z.of_nat i)
                  (VTuple [VInt a; VInt b; VInt c; VInt d; VFloat score]))).
Proof.
  apply (best_category_is_first_maximum 100 100 [KInt 0] [] tie_row).
  simpl. discriminate.
Defined.

(** The tie of the row above goes to category 0. *)
Example argmax_tie :
  decode_row 100 100 [KInt 0; KInt 1] [] tie_row
  = Ok [(0, [VTuple [VInt 37; VInt 62; VInt 37; VInt 62; VFloat (7#10)]])].
Proof. reflexivity. Qed.

(** C5, counterexample.  The score vector is not what follows the first four
    fields: on [objectness_row] the fields after the first four are
    0.9, 0.1, 0.8, whose maximum is at index 0, while the method scores the
    row from 0.1, 0.8 and files it under category 1 with confidence 0.8. *)
Lemma scores_skip_fifth_field :
  scores_of objectness_row <> drop 4 objectness_row
  /\ argmax (drop 4 objectness_row) = Ok 0%nat
  /\ argmax (scores_of objectness_row) = Ok 1%nat
  /\ decode_row 100 100 [KInt 0; KInt 1] [] objectness_row
     = Ok [(1, [VTuple [VInt 37; VInt 62; VInt 37; VInt 62; VFloat (8 # 10)]])].
Proof. repeat split. discriminate. Qed.

(** C5, amended.  The score vector is the row from its sixth field on: entry
    [i] of the score vector is field [5 + i] of the row, the category chosen
    is the position of the first maximum among these fields, and the fifth
    field is never read, in that changing it changes nothing in the outcome
    of the loop body. *)
Theorem score_vector_starts_at_field_5 {fl : Rounding} (H W : Q) (keys : list key)
    (fridge : DataPack Z) (cx cy wn hn obj : Q) (scores : list Q) :
  scores_of (cx :: cy :: wn :: hn :: obj :: scores) = scores
  /\ (forall i : nat,
        scores_of (cx :: cy :: wn :: hn :: obj :: scores) !! i
        = (cx :: cy :: wn :: hn :: obj :: scores) !! (5 + i)%nat)
  /\ (forall obj' : Q,
        decode_row H W keys fridge (cx :: cy :: wn :: hn :: obj' :: scores)
        = decode_row H W keys fridge (cx :: cy :: wn :: hn :: obj :: scores))
  /\ (forall i fridge',
        decode_row H W keys fridge (cx :: cy :: wn :: hn :: obj :: scores) = Ok fridge'
        -> fridge' <> fridge
        -> argmax scores = Ok i -> key_in (Z.of_nat i) keys = true).
Proof.
  split; [done|]. split; [done|]. split.
  - intros obj'. destruct scores as [|s0 rest]; [done|].
    by rewrite !decode_row_unfold.
  - intros i fridge' Hd Hne Ha. destruct scores as [|s0 rest]; [done|].
    rewrite decode_row_unfold in Hd. cbn zeta in Hd.
    injection Ha as <-.
    destruct ((s0 :: rest) !! argmax_scan 0%nat s0 1%nat rest); [|done].
    destruct (key_in _ keys); [done|]. congruence.
Qed.

(** C4, counterexample.  On a 4x4 image [half_pixel_row] has x = 1/2 and
    w = 1/2; all the values involved are small dyadic numbers, on which the
    float operations are exact.  The method stores x_min = int(1/2) = 0 and
    x_max = int(1/2 + 1/2) = 1, so x_max is neither x_min + w, nor x_min
    plus the truncated w, nor the truncation of x_min + w; the same holds
    for y. *)
Lemma x_max_is_not_x_min_plus_w :
  decode_row 4 4 [KInt 0] [] half_pixel_row
  = Ok [(0, [VTuple [VInt 0; VInt 1; VInt 0; VInt 1; VFloat (7 # 10)]])]
  /\ row_w 4 half_pixel_row = Ok ((1 # 8) * 4)%Q
  /\ row_h 4 half_pixel_row = Ok ((1 # 8) * 4)%Q
  /\ ~ (inject_Z 1 == inject_Z 0 + (1 # 8) * 4)%Q
  /\ 1 <> 0 + int_ ((1 # 8) * 4)
  /\ 1 <> int_ (inject_Z 0 + (1 # 8) * 4).
Proof. repeat split; try discriminate; try reflexivity. Qed.

(** C4, amended.  For a row that is decoded, with w, h the normalized width
    and height times the image size and x, y the left and top edge, all four
    computed in float arithmetic and not yet truncated, the box stored is
    (int x, int (x + w), int y, int (y + h)), the sums being float sums:
    each coordinate is the truncation toward zero of the corresponding
    float, the far edges being truncated after the addition.  This holds
    whatever the rounding of the float format is. *)
Theorem decoded_box_fields {fl : Rounding} (H W : Q) (keys : list key) (fridge : DataPack Z)
    (cx cy wn hn obj : Q) (scores : list Q) (i : nat) (score : Q) :
  argmax scores = Ok i ->
  scores !! i = Some score ->
  key_in (Z.of_nat i) keys = true ->
  let w := fmul wn W in
  let h := fmul hn H in
  let x := fsub (fmul cx W) (fdiv w 2) in
  let y := fsub (fmul cy H) (fdiv h 2) in
  decode_row H W keys fridge (cx :: cy :: wn :: hn :: obj :: scores)
  = Ok (dict_append Z.eqb (ensure_bucket fridge (Z.of_nat i)) (Z.of_nat i)
          (VTuple [VInt (int_ x); VInt (int_ (fadd x w));
                   VInt (int_ y); VInt (int_ (fadd y h)); VFloat score]))
  /\ (forall q : Q, (0 <= q)%Q -> int_ q = Qfloor q)
  /\ (forall q : Q, (q <= 0)%Q -> int_ q = Qceiling q).
Proof.
  intros Ha Hi Hk w h x y. split; [|split; [apply int_nonneg|apply int_nonpos]].
  destruct scores as [|s0 rest]; [done|].
  rewrite decode_row_unfold. cbn zeta. injection Ha as <-.
  rewrite Hi, Hk. done.
Qed.

(** The theorem on [half_pixel_row] and a 4x4 image, in exact arithmetic. *)
Lemma decoded_box_fields_witness :
  decode_row 4 4 [KInt 0] [] half_pixel_row
  = Ok (dict_append Z.eqb (ensure_bucket [] (Z.of_nat 0)) (Z.of_nat 0)
          (VTuple [VInt (int_ (fsub (fmul (3 # 16) 4) (fdiv (fmul (1 # 8) 4) 2)));
                   VInt (int_ (fadd (fsub (fmul (3 # 16) 4) (fdiv (fmul (1 # 8) 4) 2))
                                    (fmul (1 # 8) 4)));
                   VInt (int_ (fsub (fmul (3 # 16) 4) (fdiv (fmul (1 # 8) 4) 2)));
                   VInt (int_ (fadd (fsub (fmul (3 # 16) 4) (fdiv (fmul (1 # 8) 4) 2))
                                    (fmul (1 # 8) 4)));
                   VFloat (7 # 10)]))
  /\ (forall q : Q, (0 <= q)%Q -> int_ q = Qfloor q)
  /\ (forall q : Q, (q <= 0)%Q -> int_ q = Qceiling q).
Proof.
  apply (decoded_box_fields 4 4 [KInt 0] [] (3 # 16) (3 # 16) (1 # 8) (1 # 8)
           (9 # 10) [7 # 10]%Q 0%nat (7 # 10)); reflexivity.
Defined.

(** C1, at the failing input.  The item that the Decoder appends is a flat
    tuple of five fields, not the documented pair of a zone and a score.
    Read the way the other two methods read it, field 0 is the integer
    x_min, not a box, and field 1 is the integer x_max, not the confidence;
    both methods raise [TypeError] on a Detection set that holds such an
    item. *)
Theorem decoder_item_is_flat {fl : Rounding} (x w y h score : Q) :
  getitem (make_data x w y h score) 0 = Ok (VInt (int_ x))
  /\ getitem (make_data x w y h score) 1 = Ok (VInt (int_ (fadd x w)))
  /\ (forall (b : box) (c : Q), make_data x w y h score <> candidate b c)
  /\ (forall (K : Type) (k : K) (img : image),
        extract_image_segments img [(k, [make_data x w y h score])]
        = Err TypeError)
  /\ (forall (K : Type) (k : K) (nms_threshold score_threshold : Q),
        remove_overlapping_items [(k, [make_data x w y h score])]
          nms_threshold score_threshold
        = Err TypeError).
Proof. repeat split; try reflexivity. intros b c. discriminate. Qed.

(** The loop body run on a 4x4 image, then the other two stages. *)
Example pipeline_on_decoded_row :
  exists fridge,
    get_coordinates_with [4; 4]%Q [[half_pixel_row]] (OneKey (KInt 0)) = Ok fridge
    /\ remove_overlapping_items fridge default_nms_threshold default_score_threshold
       = Err TypeError
    /\ extract_image_segments (blank 4 4) fridge = Err TypeError.
Proof. eexists. repeat split. Qed.

(** ** The Extractor *)

Lemma slice_bound_nonneg (n i : Z) : 0 <= n -> 0 <= i -> slice_bound n i = clamp n i.
Proof.
  intros Hn Hi. unfold slice_bound, clamp.
  destruct (Z.ltb_spec i 0); lia.
Qed.

(** A negative bound is first moved by the length, then clamped. *)
Lemma slice_bound_wrap (n i : Z) :
  0 <= n -> slice_bound n i = clamp n (if i <? 0 then i + n else i).
Proof.
  intros Hn. unfold slice_bound, clamp.
  destruct (Z.ltb_spec i 0); lia.
Qed.

Lemma py_slice_nonneg {A : Type} (l : list A) (lo hi : Z) :
  0 <= lo -> 0 <= hi -> py_slice l lo hi = clamped_slice l lo hi.
Proof.
  intros Hlo Hhi. unfold py_slice, clamped_slice. cbn zeta.
  rewrite !slice_bound_nonneg by lia. done.
Qed.

(** C3, counterexample.  For the box (-5, 20, -5, 20) on a 100x100 image
    the bounds -5 count from the far edge: the slice runs from 95 to 20 and
    is empty, whereas the intersection of the box with the image is the
    20x20 region at (0, 20, 0, 20).  On the empty slice the colour
    conversion raises, so no segment is returned at all.  The same fault
    occurs for a box of non-negative coordinates that lies outside the
    image, such as (150, 200, 150, 200). *)
Lemma negative_box_is_not_clamped :
  crop (blank 100 100) (-5) 20 (-5) 20 = []
  /\ clamped_crop (blank 100 100) (Box (-5) 20 (-5) 20) = blank 20 20
  /\ cvtColor_BGR2RGB (clamped_crop (blank 100 100) (Box (-5) 20 (-5) 20))
     = Ok (blank 20 20)
  /\ extract_image_segments (blank 100 100)
       [(HEAD, [candidate (Box (-5) 20 (-5) 20) (9 # 10)])]
     = Err CvError
  /\ extract_image_segments (blank 100 100)
       [(HEAD, [candidate (Box 150 200 150 200) (9 # 10)])]
     = Err CvError.
Proof. repeat split; vm_compute; reflexivity. Qed.

(** C3, amended.  For a candidate whose box has no negative coordinate the
    Extractor crops the intersection of the box with the image rectangle,
    each axis clamped to [0, dimension).  When that intersection holds a
    pixel the segment is its colour conversion; when it is empty the colour
    conversion raises [cv2.error] and nothing is returned.  (A negative
    coordinate is a Python slice bound that counts from the far edge.) *)
Theorem crop_of_nonnegative_box (img : image) (b : box) (confidence : Q) :
  0 <= x_min b -> 0 <= x_max b -> 0 <= y_min b -> 0 <= y_max b ->
  crop img (y_min b) (y_max b) (x_min b) (x_max b) = clamped_crop img b
  /\ extract_segment img (candidate b confidence)
     = cvtColor_BGR2RGB (clamped_crop img b)
  /\ extract_segment img (candidate b confidence)
     = if is_empty (clamped_crop img b) then Err CvError
       else Ok (swap_channels (clamped_crop img b)).
Proof.
  intros Hx0 Hx1 Hy0 Hy1.
  assert (E : crop img (y_min b) (y_max b) (x_min b) (x_max b) = clamped_crop img b).
  { unfold crop, clamped_crop. rewrite py_slice_nonneg by done.
    apply map_ext. intros row. by apply py_slice_nonneg. }
  assert (E' : extract_segment img (candidate b confidence)
               = cvtColor_BGR2RGB (clamped_crop img b)).
  { unfold extract_segment, candidate. cbn. by rewrite E. }
  split; [done|]. split; [done|]. by rewrite E'.
Qed.

(** The theorem on a box that sticks out at the bottom of a 100x100 image. *)
Lemma crop_of_nonnegative_box_witness :
  crop (blank 100 100) 90 120 80 95 = clamped_crop (blank 100 100) (Box 80 95 90 120)
  /\ extract_segment (blank 100 100) (candidate (Box 80 95 90 120) (9 # 10))
     = cvtColor_BGR2RGB (clamped_crop (blank 100 100) (Box 80 95 90 120))
  /\ extract_segment (blank 100 100) (candidate (Box 80 95 90 120) (9 # 10))
     = if is_empty (clamped_crop (blank 100 100) (Box 80 95 90 120))
       then Err CvError
       else Ok (swap_channels (clamped_crop (blank 100 100) (Box 80 95 90 120))).
Proof.
  apply (crop_of_nonnegative_box (blank 100 100) (Box 80 95 90 120) (9 # 10));
    simpl; lia.
Defined.

(** The box of the witness sticks out at the bottom and is cut there. *)
Example crop_overshoot :
  clamped_crop (blank 100 100) (Box 80 95 90 120) = blank 10 15.
Proof. vm_compute. reflexivity. Qed.

(** ** The Suppressor *)

(** C8, counterexample.  No threshold is checked: with an overlap threshold
    of 2 and a score threshold of -1 the method returns normally, on the
    empty Detection set and on the two candidates of scenario A with an
    overlap threshold of 2. *)
Lemma thresholds_are_not_checked :
  remove_overlapping_items ([] : DataPack IDs) 2 (-1) = Ok []
  /\ ~ (2 <= 1)%Q /\ ~ (0 <= -1)%Q
  /\ remove_overlapping_items scenarioA 2 default_score_threshold = Ok scenarioA.
Proof.
  split; [reflexivity|]. split; [intros L; vm_compute in L; congruence|].
  split; [intros L; vm_compute in L; congruence|]. vm_compute. reflexivity.
Qed.


(** *** Selections of a list *)

Lemma traverse_submseteq {A B : Type} (f : A -> result B) (l l' : list A) :
  l ⊆+ l' ->
  forall out', traverse f l' = Ok out' ->
  exists out, traverse f l = Ok out /\ out ⊆+ out'.
Proof.
  induction 1 as [|x l1 l2 _ IH|x y l|x l1 l2 _ IH|l1 l2 l3 _ IH1 _ IH2];
    intros out' E.
  - exists []. split; [done|]. injection E as <-. done.
  - apply traverse_Ok in E. inversion E as [|? b ? bs Hb Hbs]; subst.
    apply traverse_Ok in Hbs. destruct (IH _ Hbs) as (out & Ho & Hs).
    exists (b :: out). split.
    + simpl. rewrite Hb, Ho. done.
    + by constructor.
  - apply traverse_Ok in E. inversion E as [|? bx ? bs Hx Hbs]; subst.
    inversion Hbs as [|? by_ ? bs' Hy Hbs']; subst.
    apply traverse_Ok in Hbs'.
    exists (by_ :: bx :: bs'). split.
    + simpl. rewrite Hy, Hx, Hbs'. done.
    + constructor.
  - apply traverse_Ok in E. inversion E as [|? b ? bs Hb Hbs]; subst.
    apply traverse_Ok in Hbs. destruct (IH _ Hbs) as (out & Ho & Hs).
    exists out. split; [done|]. by constructor.
  - destruct (IH2 _ E) as (out2 & Ho2 & Hs2).
    destruct (IH1 _ Ho2) as (out1 & Ho1 & Hs1).
    exists out1. split; [done|]. by etrans.
Qed.

Lemma map_submseteq {A B : Type} (f : A -> B) (l l' : list A) :
  l ⊆+ l' -> map f l ⊆+ map f l'.
Proof.
  induction 1 as [|x l1 l2 _ IH|x y l|x l1 l2 _ IH|l1 l2 l3 _ IH1 _ IH2]; simpl.
  - constructor.
  - by apply submseteq_skip.
  - apply submseteq_swap.
  - by apply submseteq_cons.
  - by etrans.
Qed.

Lemma traverse_list_get_seq (pre l : list value) :
  traverse (list_get (pre ++ l)) (seq (length pre) (length l)) = Ok l.
Proof.
  revert pre. induction l as [|v l IH]; intros pre; [done|].
  cbn [length seq traverse].
  assert (Hv : list_get (pre ++ v :: l) (length pre) = Ok v).
  { unfold list_get. rewrite lookup_app_r by lia. by rewrite Nat.sub_diag. }
  rewrite Hv. cbn [mbind result_bind].
  replace (pre ++ v :: l) with ((pre ++ [v]) ++ l) by (by rewrite <- app_assoc).
  replace (S (length pre)) with (length (pre ++ [v]))
    by (rewrite length_app; simpl; lia).
  rewrite IH. done.
Qed.

Lemma traverse_list_get_all (l : list value) :
  traverse (list_get l) (seq 0 (length l)) = Ok l.
Proof. apply (traverse_list_get_seq [] l). Qed.

Lemma map_fst_combine_seq {A : Type} (l : list A) (start : nat) :
  map fst (combine (seq start (length l)) l) = seq start (length l).
Proof.
  revert start. induction l as [|a l IH]; intros start; simpl; [done|].
  by rewrite IH.
Qed.

Lemma map_snd_combine_seq {A : Type} (l : list A) (start : nat) :
  map snd (combine (seq start (length l)) l) = l.
Proof.
  revert start. induction l as [|a l IH]; intros start; simpl; [done|].
  by rewrite IH.
Qed.

(** *** The three steps of the suppression routine *)

Lemma filter_sublist {A : Type} (f : A -> bool) (l : list A) :
  List.filter f l `sublist_of` l.
Proof.
  induction l as [|a l IH]; simpl; [done|].
  destruct (f a); by constructor.
Qed.

Lemma insert_desc_perm (c : cand) (l : list cand) : insert_desc c l ≡ₚ c :: l.
Proof.
  induction l as [|d l IH]; simpl; [done|].
  destruct (Qltb (cand_score c) (cand_score d)); [|done].
  rewrite IH. apply perm_swap.
Qed.

Lemma sort_desc_perm (l : list cand) : sort_desc l ≡ₚ l.
Proof.
  induction l as [|c l IH]; simpl; [done|].
  rewrite insert_desc_perm. by rewrite IH.
Qed.

Lemma greedy_sublist (thr : Q) (l : list cand) : greedy thr l `sublist_of` l.
Proof.
  funelim (greedy thr l).
  - done.
  - constructor. etrans; [apply H|]. apply filter_sublist.
Qed.

(** The positions returned are distinct positions of the argument list. *)
Lemma nms_indices_submseteq (cs : list (box * Q)) (st nt : Q) :
  nms_indices cs st nt ⊆+ seq 0 (length cs).
Proof.
  unfold nms_indices. cbn zeta.
  rewrite <- (map_fst_combine_seq cs 0) at 2.
  apply map_submseteq.
  etrans; [apply sublist_submseteq, greedy_sublist|].
  rewrite sort_desc_perm.
  apply sublist_submseteq, filter_sublist.
Qed.

(** *** One key of the Detection set *)

Lemma parse_of_traverses (all_data : list value) :
  forall coordinates scores bs ss,
    traverse (fun x => getitem x 0) all_data = Ok coordinates ->
    traverse (fun x => getitem x 1) all_data = Ok scores ->
    traverse as_box coordinates = Ok bs ->
    traverse as_float scores = Ok ss ->
    traverse parse_item all_data = Ok (combine bs ss).
Proof.
  induction all_data as [|x l IH]; intros coordinates scores bs ss H0 H1 Hb Hs.
  - injection H0 as <-. injection H1 as <-.
    injection Hb as <-. injection Hs as <-. done.
  - apply traverse_Ok in H0. inversion H0 as [|? c ? cs Hc Hcs]; subst.
    apply traverse_Ok in H1. inversion H1 as [|? s ? sc Hsx Hsc]; subst.
    apply traverse_Ok in Hb. inversion Hb as [|? b ? bs' Hbx Hbs]; subst.
    apply traverse_Ok in Hs. inversion Hs as [|? q ? ss' Hqx Hss]; subst.
    apply traverse_Ok in Hcs, Hsc, Hbs, Hss.
    cbv beta in Hc, Hsx.
    assert (Hp : parse_item x = Ok (b, q)).
    { unfold parse_item. rewrite Hc, Hsx. simpl. rewrite Hbx, Hqx. done. }
    cbn [traverse combine]. rewrite Hp, (IH _ _ _ _ Hcs Hsc Hbs Hss). done.
Qed.

Lemma traverses_of_parse (all_data : list value) :
  forall cs,
    traverse parse_item all_data = Ok cs ->
    exists coordinates scores,
      traverse (fun x => getitem x 0) all_data = Ok coordinates
      /\ traverse (fun x => getitem x 1) all_data = Ok scores
      /\ traverse as_box coordinates = Ok (map fst cs)
      /\ traverse as_float scores = Ok (map snd cs).
Proof.
  induction all_data as [|x l IH]; intros cs E.
  - injection E as <-. by exists [], [].
  - apply traverse_Ok in E. inversion E as [|? p ? ps Hp Hps]; subst.
    apply traverse_Ok in Hps. destruct (IH _ Hps) as (cl & sl & H0 & H1 & Hb & Hs).
    unfold parse_item in Hp.
    destruct (getitem x 0) as [c|] eqn:Hc; [|done].
    destruct (getitem x 1) as [s|] eqn:Hsx; [|done]. simpl in Hp.
    destruct (as_box c) as [b|] eqn:Hbx; [|done].
    destruct (as_float s) as [q|] eqn:Hqx; [|done]. simpl in Hp.
    injection Hp as <-.
    exists (c :: cl), (s :: sl). cbn [traverse map fst snd].
    rewrite Hc, Hsx, H0, H1, Hbx, Hqx, Hb, Hs. done.
Qed.

Lemma combine_fst_snd {A B : Type} (l : list (A * B)) :
  combine (map fst l) (map snd l) = l.
Proof. induction l as [|[a b] l IH]; simpl; [done|]. by rewrite IH. Qed.

Lemma thresholds_ok_nonneg (st nt : Q) :
  thresholds_ok st nt = true <-> (0 <= st)%Q /\ (0 <= nt)%Q.
Proof.
  unfold thresholds_ok. rewrite andb_true_iff, !negb_true_iff, !Qltb_false. done.
Qed.

(** [suppress_row] in terms of the parsed candidates. *)
Lemma suppress_row_parsed (nt st : Q) (all_data : list value) cs :
  traverse parse_item all_data = Ok cs ->
  suppress_row nt st all_data
  = if thresholds_ok st nt then
      traverse (fun x => list_get all_data x) (nms_indices cs st nt)
    else Err CvError.
Proof.
  intros E. destruct (traverses_of_parse _ _ E) as (cl & sl & H0 & H1 & Hb & Hs).
  unfold suppress_row, row_indexes, NMSBoxes.
  rewrite H0, H1. simpl. rewrite Hb, Hs. simpl.
  rewrite combine_fst_snd. by destruct (thresholds_ok st nt).
Qed.

Lemma row_indexes_Ok_parse (nt st : Q) (all_data : list value) (idx : list nat) :
  row_indexes nt st all_data = Ok idx ->
  exists cs, traverse parse_item all_data = Ok cs.
Proof.
  unfold row_indexes, NMSBoxes. intros E.
  destruct (traverse (fun x => getitem x 0) all_data) as [cl|] eqn:H0; [|done].
  destruct (traverse (fun x => getitem x 1) all_data) as [sl|] eqn:H1; [|done].
  simpl in E.
  destruct (traverse as_box cl) as [bs|] eqn:Hb; [|done].
  destruct (traverse as_float sl) as [ss|] eqn:Hs; [|done].
  eexists. by eapply parse_of_traverses.
Qed.

Lemma row_indexes_Ok_thresholds (nt st : Q) (all_data : list value) (idx : list nat) :
  row_indexes nt st all_data = Ok idx -> thresholds_ok st nt = true.
Proof.
  unfold row_indexes, NMSBoxes. intros E.
  destruct (traverse (fun x => getitem x 0) all_data) as [cl|]; [|done].
  destruct (traverse (fun x => getitem x 1) all_data) as [sl|]; [|done].
  simpl in E.
  destruct (traverse as_box cl) as [bs|]; [|done].
  destruct (traverse as_float sl) as [ss|]; [|done].
  simpl in E. by destruct (thresholds_ok st nt).
Qed.

Lemma suppress_row_Ok_parse (nt st : Q) (all_data out : list value) :
  suppress_row nt st all_data = Ok out ->
  exists cs, traverse parse_item all_data = Ok cs.
Proof.
  unfold suppress_row. intros E.
  destruct (row_indexes nt st all_data) as [idx|] eqn:Hi; [|done].
  by eapply row_indexes_Ok_parse.
Qed.

Lemma suppress_row_Ok_thresholds (nt st : Q) (all_data out : list value) :
  suppress_row nt st all_data = Ok out -> thresholds_ok st nt = true.
Proof.
  unfold suppress_row. intros E.
  destruct (row_indexes nt st all_data) as [idx|] eqn:Hi; [|done].
  by eapply row_indexes_Ok_thresholds.
Qed.

Lemma well_shaped_parse (x : value) :
  well_shaped x = true -> exists p, parse_item x = Ok p.
Proof.
  destruct x as [| |[|[| |[|[] [|[] [|[] [|[] []]]]]] [|[] ?]]]; try done;
    intros _; eexists; reflexivity.
Qed.

Lemma well_shaped_traverse (all_data : list value) :
  forallb well_shaped all_data = true ->
  exists cs, traverse parse_item all_data = Ok cs.
Proof.
  induction all_data as [|x l IH]; simpl.
  - by exists [].
  - intros [Hx Hl]%andb_prop.
    destruct (well_shaped_parse x Hx) as [p Hp], (IH Hl) as [cs Hcs].
    exists (p :: cs). rewrite Hp, Hcs. done.
Qed.

(** On parsed candidates the row is rebound to a selection of its items. *)
Lemma suppress_row_selects (nt st : Q) (all_data : list value) cs :
  thresholds_ok st nt = true ->
  traverse parse_item all_data = Ok cs ->
  exists out, suppress_row nt st all_data = Ok out /\ out ⊆+ all_data.
Proof.
  intros Hthr E. rewrite (suppress_row_parsed nt st all_data cs E), Hthr.
  apply (traverse_submseteq _ _ (seq 0 (length all_data))).
  - rewrite <- (traverse_length _ _ _ E). apply nms_indices_submseteq.
  - apply traverse_list_get_all.
Qed.

(** C7, counterexample.  The list of a key need not be a sub-list of the
    input list: on scenario A' the survivors of HEAD come out by descending
    confidence, 0.9 before 0.6, while the input has the candidate of
    confidence 0.6 first. *)
Lemma selection_is_not_a_sublist :
  remove_overlapping_items scenarioA' default_nms_threshold default_score_threshold
  = Ok [(HEAD, [candidate (Box 10 50 10 50) (9 # 10);
                candidate (Box 60 90 60 90) (6 # 10)]);
        (ARMS, [])]
  /\ ~ ([candidate (Box 10 50 10 50) (9 # 10); candidate (Box 60 90 60 90) (6 # 10)]
        `sublist_of`
        [candidate (Box 60 90 60 90) (6 # 10); candidate (Box 10 50 10 50) (9 # 10);
         candidate (Box 12 52 12 52) (8 # 10)]).
Proof.
  split; [vm_compute; reflexivity|].
  intros Hs. apply sublist_cons_r in Hs as [Hs|(l' & E & _)]; [|discriminate].
  apply sublist_cons_r in Hs as [Hs|(l' & E & Hs)].
  - apply sublist_cons_r in Hs as [Hs|(l' & E & _)]; [|discriminate].
    by apply sublist_nil_r in Hs.
  - injection E as <-.
    apply sublist_cons_r in Hs as [Hs|(l' & E & _)]; [|discriminate].
    by apply sublist_nil_r in Hs.
Qed.

(** C7, amended.  On a Detection set whose items have the documented shape,
    with thresholds that are not negative, the Suppressor returns a
    Detection set with the same keys in the same order (a key whose
    candidates are all dropped stays, bound to the empty list), and the list
    of every key is a selection of the items of the input list, each item
    taken at most once, in the order of selection, which need not be the
    order of the input; no list is longer than before. *)
Theorem suppressor_keeps_keys_and_shrinks_lists (K : Type) (data_pack : DataPack K)
    (nms_threshold score_threshold : Q) :
  well_shaped_pack data_pack = true ->
  (0 <= nms_threshold)%Q -> (0 <= score_threshold)%Q ->
  exists out : DataPack K,
    remove_overlapping_items data_pack nms_threshold score_threshold = Ok out
    /\ map fst out = map fst data_pack
    /\ Forall2 (fun o i => fst o = fst i
                           /\ snd o ⊆+ snd i
                           /\ (length (snd o) <= length (snd i))%nat)
               out data_pack.
Proof.
  intros Hshape Hnt Hst.
  assert (Hthr : thresholds_ok score_threshold nms_threshold = true)
    by (by apply thresholds_ok_nonneg).
  revert Hshape. unfold well_shaped_pack, remove_overlapping_items.
  induction data_pack as [|[row all_data] dp IH]; cbn [forallb traverse snd].
  - intros _. exists []. repeat split. constructor.
  - intros [Hrow Hdp]%andb_prop.
    destruct (well_shaped_traverse _ Hrow) as [cs Hcs].
    destruct (suppress_row_selects nms_threshold score_threshold _ _ Hthr Hcs)
      as (kept & Hk & Hsub).
    destruct (IH Hdp) as (out & Ho & Hkeys & Hlists).
    exists ((row, kept) :: out).
    rewrite Hk. cbn [mbind result_bind]. rewrite Ho. cbn [mbind result_bind].
    split; [done|]. split.
    + cbn [map fst]. by rewrite Hkeys.
    + constructor; [|done]. cbn [fst snd]. split; [done|]. split; [done|].
      by apply submseteq_length.
Qed.

(** The theorem on scenario A' with the default thresholds. *)
Lemma suppressor_keeps_keys_and_shrinks_lists_witness :
  exists out : DataPack IDs,
    remove_overlapping_items scenarioA' default_nms_threshold default_score_threshold
    = Ok out
    /\ map fst out = map fst scenarioA'
    /\ Forall2 (fun o i => fst o = fst i
                           /\ snd o ⊆+ snd i
                           /\ (length (snd o) <= length (snd i))%nat)
               out scenarioA'.
Proof.
  apply (suppressor_keeps_keys_and_shrinks_lists IDs scenarioA'
           default_nms_threshold default_score_threshold);
    [reflexivity | intros L; vm_compute in L; discriminate
    | intros L; vm_compute in L; discriminate].
Defined.

(** Scenario A', evaluated: the survivors of HEAD come out by descending
    confidence, which is not the order of the input, and ARMS keeps its key
    with an empty list. *)
Example scenarioA'_result :
  remove_overlapping_items scenarioA' default_nms_threshold default_score_threshold
  = Ok [(HEAD, [candidate (Box 10 50 10 50) (9 # 10);
                candidate (Box 60 90 60 90) (6 # 10)]);
        (ARMS, [])].
Proof. vm_compute. reflexivity. Qed.

(** Scenarios A and B of the specification. *)
Example scenarioA_result :
  remove_overlapping_items scenarioA default_nms_threshold default_score_threshold
  = Ok [(HEAD, [candidate (Box 10 50 10 50) (9 # 10)])].
Proof. vm_compute. reflexivity. Qed.

Example scenarioB_result :
  remove_overlapping_items scenarioA default_nms_threshold (95 # 100)
  = Ok [(HEAD, [])].
Proof. vm_compute. reflexivity. Qed.

(** *** The selection is settled *)

Lemma StronglySorted_map {A B : Type} (f : A -> B) (R : B -> B -> Prop) (l : list A) :
  StronglySorted (fun a b => R (f a) (f b)) l -> StronglySorted R (map f l).
Proof.
  induction 1 as [|a l _ IH Ha]; simpl; constructor; [done|].
  apply List.Forall_map. done.
Qed.

Lemma StronglySorted_weaken {A : Type} (R1 R2 : A -> A -> Prop) (l : list A) :
  (forall a b, R1 a b -> R2 a b) -> StronglySorted R1 l -> StronglySorted R2 l.
Proof.
  intros HR. induction 1 as [|a l _ IH Ha]; constructor; [done|].
  eapply Forall_impl; [exact Ha|]. intros b. apply HR.
Qed.

Lemma StronglySorted_sublist {A : Type} (R : A -> A -> Prop) (l1 l2 : list A) :
  l1 `sublist_of` l2 -> StronglySorted R l2 -> StronglySorted R l1.
Proof.
  induction 1 as [|x l1 l2 Hs IH|x l1 l2 Hs IH]; intros H2.
  - done.
  - apply StronglySorted_inv in H2 as [H2 Hx]. constructor; [by apply IH|].
    rewrite Forall_forall in Hx |- *. intros y Hy.
    apply Hx. by apply (sublist_subseteq _ _ Hs).
  - apply StronglySorted_inv in H2 as [H2 _]. by apply IH.
Qed.

Lemma insert_desc_sorted (c : cand) (l : list cand) :
  StronglySorted (fun a b => (cand_score b <= cand_score a)%Q) l ->
  StronglySorted (fun a b => (cand_score b <= cand_score a)%Q) (insert_desc c l).
Proof.
  induction 1 as [|d l Hl IH Hd]; simpl.
  - repeat constructor.
  - destruct (Qltb (cand_score c) (cand_score d)) eqn:E.
    + apply Qltb_true in E. constructor; [done|].
      rewrite insert_desc_perm. constructor; [|done].
      by apply Qlt_le_weak.
    + apply Qltb_false in E. constructor; [by constructor|].
      constructor; [done|].
      eapply Forall_impl; [exact Hd|]. intros e He. simpl in He.
      by eapply Qle_trans.
Qed.

Lemma sort_desc_sorted (l : list cand) :
  StronglySorted (fun a b => (cand_score b <= cand_score a)%Q) (sort_desc l).
Proof.
  induction l as [|c l IH]; simpl; [constructor|]. by apply insert_desc_sorted.
Qed.

Lemma greedy_apart (thr : Q) (l : list cand) :
  StronglySorted (fun c r => survives thr c r = true) (greedy thr l).
Proof.
  funelim (greedy thr l).
  - constructor.
  - constructor; [done|].
    rewrite Forall_forall. intros r Hr.
    apply (sublist_subseteq _ _ (greedy_sublist _ _)) in Hr.
    apply list_elem_of_In, List.filter_In in Hr. tauto.
Qed.

Lemma nms_settled (cs : list (box * Q)) (st nt : Q) :
  settled st nt
    (map snd (greedy nt (sort_desc (List.filter (eligible st)
                                      (combine (seq 0 (length cs)) cs))))).
Proof.
  set (numbered := combine (seq 0 (length cs)) cs).
  set (sorted := sort_desc (List.filter (eligible st) numbered)).
  pose proof (greedy_sublist nt sorted) as Hsub.
  split; [|split].
  - apply List.Forall_map. rewrite Forall_forall. intros c Hc.
    apply (sublist_subseteq _ _ Hsub) in Hc.
    unfold sorted in Hc. rewrite sort_desc_perm in Hc.
    apply list_elem_of_In, List.filter_In in Hc as [_ Hc].
    unfold eligible in Hc. by apply negb_true_iff in Hc.
  - apply (StronglySorted_map snd (fun p q => (snd q <= snd p)%Q)).
    apply (StronglySorted_sublist _ _ _ Hsub), sort_desc_sorted.
  - apply (StronglySorted_map snd
             (fun p q => Qltb nt (iou (fst p) (fst q)) = false)).
    eapply StronglySorted_weaken; [|apply greedy_apart].
    intros c r Hcr. unfold survives in Hcr. by apply negb_true_iff in Hcr.
Qed.

(** On a settled list each of the three steps changes nothing. *)
Lemma filter_eligible_id (st : Q) (l : list cand) :
  Forall (fun p => Qltb (snd p) st = false) (map snd l) ->
  List.filter (eligible st) l = l.
Proof.
  induction l as [|c l IH]; simpl; [done|].
  intros [Hc Hl]%Forall_cons. unfold eligible at 1, cand_score.
  rewrite Hc. simpl. by rewrite IH.
Qed.

Lemma sort_desc_id (l : list cand) :
  StronglySorted (fun p q => (snd q <= snd p)%Q) (map snd l) -> sort_desc l = l.
Proof.
  induction l as [|c l IH]; simpl; [done|].
  intros [Hc Hl]%StronglySorted_cons. rewrite (IH Hl).
  destruct l as [|d l']; simpl; [done|].
  apply Forall_cons in Hc as [Hd _].
  apply Qltb_false in Hd. unfold cand_score. by rewrite Hd.
Qed.

Lemma filter_survives_id (thr : Q) (c : cand) (l : list cand) :
  Forall (fun q => Qltb thr (iou (fst (snd c)) (fst q)) = false) (map snd l) ->
  List.filter (survives thr c) l = l.
Proof.
  induction l as [|r l IH]; simpl; [done|].
  intros [Hr Hl]%Forall_cons. unfold survives at 1, cand_box.
  rewrite Hr. simpl. by rewrite IH.
Qed.

Lemma greedy_id (thr : Q) (l : list cand) :
  StronglySorted (fun p q => Qltb thr (iou (fst p) (fst q)) = false) (map snd l) ->
  greedy thr l = l.
Proof.
  induction l as [|c l IH]; simpl; intros Hl; simp greedy; [done|].
  apply StronglySorted_cons in Hl as [Hc Hl].
  rewrite (filter_survives_id thr c l Hc). by rewrite (IH Hl).
Qed.

Lemma nms_indices_settled (ps : list (box * Q)) (st nt : Q) :
  settled st nt ps -> nms_indices ps st nt = seq 0 (length ps).
Proof.
  intros (Hel & Hdesc & Hapart). unfold nms_indices. cbn zeta.
  pose proof (map_snd_combine_seq ps 0) as Hsnd.
  rewrite filter_eligible_id by (by rewrite Hsnd).
  rewrite sort_desc_id by (by rewrite Hsnd).
  rewrite greedy_id by (by rewrite Hsnd).
  apply map_fst_combine_seq.
Qed.

(** *** Running the row a second time *)

Lemma elem_of_numbered {A : Type} (l : list A) (start i : nat) (a : A) :
  (i, a) ∈ combine (seq start (length l)) l ->
  (start <= i)%nat /\ l !! (i - start)%nat = Some a.
Proof.
  revert start. induction l as [|b l IH]; intros start; simpl.
  - intros E. by apply elem_of_nil in E.
  - intros [E|E]%elem_of_cons.
    + injection E as -> ->. by rewrite Nat.sub_diag.
    + apply IH in E as [Hle E]. split; [lia|].
      replace (i - start)%nat with (S (i - S start)) by lia. done.
Qed.

Lemma numbered_items (all_data : list value) (cs : list (box * Q)) (c : cand) :
  traverse parse_item all_data = Ok cs ->
  c ∈ combine (seq 0 (length cs)) cs ->
  exists x, list_get all_data (fst c) = Ok x /\ parse_item x = Ok (snd c).
Proof.
  intros E Hc. destruct c as [i p].
  apply elem_of_numbered in Hc as [_ Hi]. rewrite Nat.sub_0_r in Hi.
  apply traverse_Ok in E.
  destruct (Forall2_lookup_r _ _ _ _ _ E Hi) as (x & Hx & Hp).
  exists x. unfold list_get. simpl. by rewrite Hx.
Qed.

Lemma selected_parse (all_data : list value) (kept : list cand) :
  (forall c, c ∈ kept ->
     exists x, list_get all_data (fst c) = Ok x /\ parse_item x = Ok (snd c)) ->
  forall out,
    traverse (list_get all_data) (map fst kept) = Ok out ->
    traverse parse_item out = Ok (map snd kept).
Proof.
  induction kept as [|c kept IH]; intros Hk out E.
  - injection E as <-. done.
  - apply traverse_Ok in E. cbn [map] in E.
    inversion E as [|? v ? vs Hv Hvs]; subst.
    apply traverse_Ok in Hvs.
    destruct (Hk c) as (x & Hx & Hp); [by left|].
    assert (v = x) as -> by congruence.
    cbn [traverse map]. rewrite Hp. cbn [mbind result_bind].
    rewrite (IH (fun c' Hc' => Hk c' (list_elem_of_further _ _ _ Hc')) _ Hvs).
    done.
Qed.

Lemma suppress_row_idempotent (nt st : Q) (all_data out : list value) :
  suppress_row nt st all_data = Ok out -> suppress_row nt st out = Ok out.
Proof.
  intros E. destruct (suppress_row_Ok_parse _ _ _ _ E) as [cs Hcs].
  pose proof (suppress_row_Ok_thresholds _ _ _ _ E) as Hthr.
  rewrite (suppress_row_parsed nt st _ _ Hcs), Hthr in E.
  unfold nms_indices in E. cbn zeta in E.
  set (kept := greedy nt _) in E.
  assert (Hout : traverse parse_item out = Ok (map snd kept)).
  { apply (selected_parse all_data kept); [|done].
    intros c Hc. apply (numbered_items all_data cs c Hcs).
    apply (sublist_subseteq _ _ (greedy_sublist _ _)) in Hc.
    rewrite sort_desc_perm in Hc.
    by apply (sublist_subseteq _ _ (filter_sublist _ _)) in Hc. }
  rewrite (suppress_row_parsed nt st _ _ Hout), Hthr.
  rewrite (nms_indices_settled (map snd kept) st nt (nms_settled cs st nt)).
  rewrite (traverse_length _ _ _ Hout).
  apply traverse_list_get_all.
Qed.

(** C9.  Whenever the Suppressor returns a Detection set, running it again
    on that set with the same thresholds returns the very same set: the same
    keys, and for each key the same items in the same order.  The thresholds
    need not lie in [0,1] for this. *)
Theorem suppressor_idempotent (K : Type) (data_pack out : DataPack K)
    (nms_threshold score_threshold : Q) :
  remove_overlapping_items data_pack nms_threshold score_threshold = Ok out ->
  remove_overlapping_items out nms_threshold score_threshold = Ok out.
Proof.
  unfold remove_overlapping_items. revert out.
  induction data_pack as [|[row all_data] dp IH]; intros out; cbn [traverse].
  - intros [= <-]. done.
  - destruct (suppress_row nms_threshold score_threshold all_data)
      as [kept|] eqn:Hk; [|done].
    cbn [mbind result_bind].
    destruct (traverse _ dp) as [rest|] eqn:Hrest; [|done].
    cbn [mbind result_bind]. intros [= <-]. cbn [traverse].
    rewrite (suppress_row_idempotent _ _ _ _ Hk). cbn [mbind result_bind].
    rewrite (IH rest eq_refl). done.
Qed.

(** The theorem on the outcome of scenario A'. *)
Lemma suppressor_idempotent_witness :
  remove_overlapping_items
    [(HEAD, [candidate (Box 10 50 10 50) (9 # 10);
             candidate (Box 60 90 60 90) (6 # 10)]);
     (ARMS, [])]
    default_nms_threshold default_score_threshold
  = Ok [(HEAD, [candidate (Box 10 50 10 50) (9 # 10);
                candidate (Box 60 90 60 90) (6 # 10)]);
        (ARMS, [])].
Proof.
  apply (suppressor_idempotent IDs scenarioA').
  vm_compute. reflexivity.
Defined.

(** C8, amended.  The method has no check of its own on either threshold
    and no threshold error: both thresholds are only passed on to NMSBoxes.
    For every pair of thresholds, inside [0,1] or not, it returns normally
    whenever NMSBoxes returns for the boxes and scores of each key, and on a
    Detection set without keys it returns the empty set. *)
Theorem suppressor_has_no_threshold_check (K : Type) (data_pack : DataPack K)
    (nms_threshold score_threshold : Q) :
  Forall (fun entry =>
            exists indexes,
              row_indexes nms_threshold score_threshold (snd entry) = Ok indexes)
         data_pack ->
  remove_overlapping_items ([] : DataPack K) nms_threshold score_threshold = Ok []
  /\ exists out : DataPack K,
       remove_overlapping_items data_pack nms_threshold score_threshold = Ok out.
Proof.
  intros Hrows. split; [reflexivity|].
  unfold remove_overlapping_items.
  induction Hrows as [|[row all_data] dp [idx Hidx] _ [out Ho]]; cbn [traverse].
  - by exists [].
  - cbn [snd] in Hidx.
    destruct (row_indexes_Ok_parse _ _ _ _ Hidx) as [cs Hcs].
    pose proof (row_indexes_Ok_thresholds _ _ _ _ Hidx) as Hthr.
    destruct (suppress_row_selects nms_threshold score_threshold _ _ Hthr Hcs)
      as (kept & Hk & _).
    exists ((row, kept) :: out).
    rewrite Hk. cbn [mbind result_bind]. rewrite Ho. done.
Qed.

(** The theorem on scenario A with an overlap threshold of 2. *)
Lemma suppressor_has_no_threshold_check_witness :
  remove_overlapping_items ([] : DataPack IDs) 2 (1 # 2) = Ok []
  /\ exists out : DataPack IDs, remove_overlapping_items scenarioA 2 (1 # 2) = Ok out.
Proof.
  apply (suppressor_has_no_threshold_check IDs scenarioA 2 (1 # 2)).
  repeat constructor. eexists. vm_compute. reflexivity.
Defined.

(** * Further properties of the Decoder *)

Lemma foldM_app {S A : Type} (body : S -> A -> result S) (s : S) (l1 l2 : list A) :
  foldM body s (l1 ++ l2) = (s' ← foldM body s l1; foldM body s' l2).
Proof.
  revert s. induction l1 as [|a l1 IH]; intros s; cbn [foldM app]; [done|].
  destruct (body s a) as [s'|e]; cbn [mbind result_bind]; [apply IH|done].
Qed.

Lemma foldM_concat {S A : Type} (body : S -> A -> result S) (s : S)
    (ls : list (list A)) :
  foldM (fun s l => foldM body s l) s ls = foldM body s (concat ls).
Proof.
  revert s. induction ls as [|l ls IH]; intros s; cbn [foldM concat]; [done|].
  rewrite foldM_app. destruct (foldM body s l); cbn [mbind result_bind]; [apply IH|done].
Qed.

Lemma get_coordinates_with_rows {fl : Rounding} (H W : Q) (output_data : list (list (list Q)))
    (keys : keys_arg) :
  get_coordinates_with [H; W] output_data keys
  = foldM (decode_row H W (key_list keys)) [] (concat output_data).
Proof.
  unfold get_coordinates_with, key_list. cbn [unpack2 mbind result_bind].
  destruct keys; apply foldM_concat.
Qed.

(** The loop body in two steps: compute the item, then file it. *)
Lemma decode_row_item {fl : Rounding} (H W : Q) (keys : list key) (fridge : DataPack Z)
    (detection : list Q) :
  decode_row H W keys fridge detection
  = (kd ← row_item H W detection;
     if key_in (fst kd) keys then
       Ok (dict_append Z.eqb (ensure_bucket fridge (fst kd)) (fst kd) (snd kd))
     else Ok fridge).
Proof.
  destruct detection as [|cx [|cy [|wn [|hn [|obj [|s0 rest]]]]]]; try reflexivity.
  rewrite decode_row_unfold. unfold row_item, scores_of, row_get. cbn.
  destruct ((s0 :: rest) !! argmax_scan 0%nat s0 1%nat rest); done.
Qed.

Lemma row_item_short {fl : Rounding} (H W : Q) (detection : list Q) :
  (length detection < 6)%nat -> row_item H W detection = Err ValueError.
Proof.
  destruct detection as [|cx [|cy [|wn [|hn [|obj [|s0 rest]]]]]]; try reflexivity.
  simpl. lia.
Qed.

Lemma row_item_long {fl : Rounding} (H W : Q) (detection : list Q) :
  (6 <= length detection)%nat -> exists kd, row_item H W detection = Ok kd.
Proof.
  destruct detection as [|cx [|cy [|wn [|hn [|obj [|s0 rest]]]]]];
    try (simpl; lia).
  intros _. destruct (argmax_spec s0 rest) as (i & score & Ha & Hi & _).
  unfold row_item, scores_of, row_get. cbn [drop]. rewrite Ha.
  cbn [mbind result_bind]. rewrite Hi. cbn. eauto.
Qed.


(** X4.  A row with fewer than six fields has no score vector: the scan
    raises [ValueError] when it reaches it, whether or not the row would be
    retained, and no Detection set is returned. *)
Theorem short_row_raises {fl : Rounding} (H W : Q) (output_data : list (list (list Q)))
    (keys : keys_arg) :
  Exists (fun d => (length d < 6)%nat) (concat output_data) ->
  get_coordinates_with [H; W] output_data keys = Err ValueError.
Proof.
  rewrite get_coordinates_with_rows. generalize ([] : DataPack Z) as fridge.
  induction (concat output_data) as [|d rows IH]; intros fridge Hex.
  - by apply Exists_nil in Hex.
  - cbn [foldM]. rewrite decode_row_item.
    destruct (Nat.lt_ge_cases (length d) 6) as [Hs|Hl].
    + by rewrite (row_item_short H W d Hs).
    + destruct (row_item_long H W d Hl) as [kd ->]. cbn [mbind result_bind].
      apply Exists_cons in Hex as [Hd|Hex]; [lia|].
      destruct (key_in (fst kd) (key_list keys)); cbn [mbind result_bind];
        by apply IH.
Qed.

(** The row of five fields comes second; the first row is decoded first. *)
Lemma short_row_raises_witness :
  get_coordinates_with [100; 100]%Q short_row_output (OneKey (KInt 0))
  = Err ValueError.
Proof.
  apply (short_row_raises 100 100 short_row_output (OneKey (KInt 0))).
  apply Exists_cons_tl, Exists_cons_hd. simpl. lia.
Defined.

(** X5.  The grouping of the rows into tensors has no effect: the outcome is
    that of one tensor holding all rows in order. *)
Theorem tensor_grouping_is_irrelevant {fl : Rounding} (dims : list Q)
    (output_data : list (list (list Q))) (keys : keys_arg) :
  get_coordinates_with dims output_data keys
  = get_coordinates_with dims [concat output_data] keys.
Proof.
  unfold get_coordinates_with.
  destruct (unpack2 dims) as [[H W]|e]; cbn [mbind result_bind]; [|done].
  rewrite !foldM_concat. cbn [concat]. by rewrite app_nil_r.
Qed.

(** *** The dict operations of the loop body *)





Lemma dict_file_new (fridge : DataPack Z) (k : Z) (x : value) :
  dict_mem Z.eqb k fridge = false ->
  dict_append Z.eqb (dict_set Z.eqb fridge k []) k x = fridge ++ [(k, [x])].
Proof.
  induction fridge as [|[k' v'] d IH]; simpl.
  - by rewrite Z.eqb_refl.
  - destruct (Z.eqb k k') eqn:E; simpl; [done|]. intros Hm.
    by rewrite E, (IH Hm).
Qed.

Lemma dict_mem_keys (fridge : DataPack Z) (k : Z) :
  dict_mem Z.eqb k fridge = false -> k ∉ map fst fridge.
Proof.
  induction fridge as [|[k' v'] d IH]; simpl.
  - intros _. apply not_elem_of_nil.
  - destruct (Z.eqb_spec k k'); simpl; [done|].
    intros Hm. apply not_elem_of_cons. split; [done|by apply IH].
Qed.

Lemma dict_append_keys (fridge : DataPack Z) (k : Z) (x : value) :
  map fst (dict_append Z.eqb fridge k x) = map fst fridge.
Proof.
  induction fridge as [|[k' v'] d IH]; simpl; [done|].
  destruct (Z.eqb k k'); simpl; [done|]. by rewrite IH.
Qed.

Lemma dict_append_Forall (P : Z * list value -> Prop) (fridge : DataPack Z)
    (k : Z) (x : value) :
  (forall k' l, P (k', l) -> P (k', l ++ [x])) ->
  Forall P fridge -> Forall P (dict_append Z.eqb fridge k x).
Proof.
  intros HP. induction 1 as [|[k' v'] d Hh Hd IH]; simpl; [constructor|].
  destruct (Z.eqb k k'); constructor; auto.
Qed.

(** *** What the scan keeps true of the dict it builds *)

Lemma decode_row_ok {fl : Rounding} (H W : Q) (keys : list key) (fridge fridge' : DataPack Z)
    (detection : list Q) :
  fridge_ok keys fridge ->
  decode_row H W keys fridge detection = Ok fridge' ->
  fridge_ok keys fridge'.
Proof.
  intros [Hnd Hall]. rewrite decode_row_item.
  destruct (row_item H W detection) as [[k x]|]; cbn [mbind result_bind fst snd];
    [|done].
  destruct (key_in k keys) eqn:Hk; [|by intros [= <-]].
  intros [= <-]. unfold ensure_bucket.
  destruct (dict_mem Z.eqb k fridge) eqn:Hm.
  - split; [by rewrite dict_append_keys|].
    apply dict_append_Forall; [|done].
    intros k' l [? _]. split; [done|]. destruct l; discriminate.
  - rewrite (dict_file_new _ _ _ Hm). split.
    + rewrite map_app. cbn [map fst]. apply NoDup_app. split; [done|].
      split; [|apply NoDup_singleton].
      intros k' Hk' ->%list_elem_of_singleton.
      by apply (dict_mem_keys _ _ Hm).
    + apply Forall_app. split; [done|]. by repeat constructor.
Qed.

Lemma foldM_decode_ok {fl : Rounding} (H W : Q) (keys : list key) (rows : list (list Q)) :
  forall fridge fridge',
    fridge_ok keys fridge ->
    foldM (decode_row H W keys) fridge rows = Ok fridge' ->
    fridge_ok keys fridge'.
Proof.
  induction rows as [|d rows IH]; intros fridge fridge' Hok; cbn [foldM].
  - by intros [= <-].
  - destruct (decode_row H W keys fridge d) as [f1|] eqn:Hd;
      cbn [mbind result_bind]; [|done].
    apply IH. by eapply decode_row_ok.
Qed.

(** X1.  The dict returned by the scan is well formed: its keys are pairwise
    distinct, every key is one the caller asked for, and no key is bound to
    an empty list (a bucket is created only when its first item arrives). *)
Theorem decoded_set_is_well_formed {fl : Rounding} (H W : Q) (output_data : list (list (list Q)))
    (keys : keys_arg) (fridge : DataPack Z) :
  get_coordinates_with [H; W] output_data keys = Ok fridge ->
  NoDup (map fst fridge)
  /\ Forall (fun entry => key_in (fst entry) (key_list keys) = true
                          /\ snd entry <> [])
            fridge.
Proof.
  rewrite get_coordinates_with_rows.
  apply foldM_decode_ok. split; constructor.
Qed.

(** The theorem on two tensors with categories 0 and 1 asked for. *)
Lemma decoded_set_is_well_formed_witness :
  NoDup (map fst two_tensors_result)
  /\ Forall (fun entry => key_in (fst entry) (key_list (KeyList [KInt 0; KInt 1])) = true
                          /\ snd entry <> [])
            two_tensors_result.
Proof.
  apply (decoded_set_is_well_formed 100 100 two_tensors (KeyList [KInt 0; KInt 1])).
  vm_compute. reflexivity.
Defined.

(** *** The contents of the buckets *)





(** *** Keys that are not integers *)

Lemma key_in_no_int (k : Z) (keys : list key) :
  forallb (fun key => negb (is_int_key key)) keys = true -> key_in k keys = false.
Proof.
  induction keys as [|[z|i|s] keys IH]; simpl; [done|done|exact IH|exact IH].
Qed.

(** X3.  A key matches a category only as an integer: when no key is an
    integer (the members of [IDs] and strings are not), no row is retained
    and the dict returned is empty, whatever the rows score. *)
Theorem non_integer_keys_retain_nothing {fl : Rounding} (H W : Q)
    (output_data : list (list (list Q))) (keys : keys_arg) (fridge : DataPack Z) :
  forallb (fun key => negb (is_int_key key)) (key_list keys) = true ->
  get_coordinates_with [H; W] output_data keys = Ok fridge ->
  fridge = [].
Proof.
  intros Hkeys. rewrite get_coordinates_with_rows.
  generalize ([] : DataPack Z) as start.
  induction (concat output_data) as [|d rows IH]; intros start; cbn [foldM].
  - by intros [= <-].
  - rewrite decode_row_item.
    destruct (row_item H W d) as [kd|]; cbn [mbind result_bind]; [|done].
    rewrite (key_in_no_int _ _ Hkeys). cbn [mbind result_bind].
    intros E. apply IH in E. done.
Qed.

(** The theorem on [two_tensors] with a member of [IDs] and its name as keys. *)
Lemma non_integer_keys_retain_nothing_witness : ([] : DataPack Z) = [].
Proof.
  apply (non_integer_keys_retain_nothing 100 100 two_tensors
           (KeyList [KId HEAD; KStr "HEAD"]) []);
    vm_compute; reflexivity.
Defined.

(** *** Truncation keeps the order of the edges *)

Lemma int_monotone (p q : Q) : (p <= q)%Q -> int_ p <= int_ q.
Proof.
  intros Hpq. destruct (Qlt_le_dec p 0) as [Hp|Hp].
  - rewrite (int_nonpos p) by (by apply Qlt_le_weak).
    destruct (Qlt_le_dec 0 q) as [Hq|Hq].
    + rewrite (int_nonneg q) by (by apply Qlt_le_weak).
      transitivity 0.
      * change 0 with (Qceiling 0). apply Qceiling_resp_le. by apply Qlt_le_weak.
      * change 0 with (Qfloor 0). apply Qfloor_resp_le. by apply Qlt_le_weak.
    + rewrite (int_nonpos q) by done. by apply Qceiling_resp_le.
  - rewrite (int_nonneg p) by done.
    rewrite (int_nonneg q) by (by eapply Qle_trans).
    by apply Qfloor_resp_le.
Qed.

(** X6.  For a row with a non-negative width and height on an image of
    non-negative size, the stored box has x_min <= x_max and
    y_min <= y_max; the edges may still be negative or beyond the image.
    Of the rounding this uses that it is monotone, leaves a float as it is
    and leaves 0 as it is, which round-to-nearest does. *)
Theorem decoded_box_is_ordered {fl : Rounding} (H W : Q) (detection : list Q) (k : Z) (data : value)
    (wn hn : Q) :
  (forall p q : Q, (p <= q)%Q -> (rnd p <= rnd q)%Q) ->
  (forall q : Q, (rnd (rnd q) == rnd q)%Q) ->
  (rnd 0 == 0)%Q ->
  row_item H W detection = Ok (k, data) ->
  detection !! 2%nat = Some wn -> detection !! 3%nat = Some hn ->
  (0 <= wn)%Q -> (0 <= hn)%Q -> (0 <= W)%Q -> (0 <= H)%Q ->
  exists (a b c d : Z) (score : Q),
    data = VTuple [VInt a; VInt b; VInt c; VInt d; VFloat score]
    /\ a <= b /\ c <= d.
Proof.
  intros Hmono Hidem Hzero E H2 H3 Hwn Hhn HW HH.
  assert (Hpos : forall a b : Q, (0 <= a)%Q -> (0 <= b)%Q -> (0 <= fmul a b)%Q).
  { intros a b Ha Hb. unfold fmul. rewrite <- Hzero.
    apply Hmono. by apply Qmult_le_0_compat. }
  assert (Hadd : forall t w : Q, (0 <= w)%Q -> int_ (rnd t) <= int_ (fadd (rnd t) w)).
  { intros t w Hw. apply int_monotone. unfold fadd.
    rewrite <- (Hidem t) at 1. apply Hmono.
    rewrite <- (Qplus_0_r (rnd t)) at 1. by apply Qplus_le_r. }
  destruct detection as [|cx [|cy [|wn' [|hn' [|obj [|s0 rest]]]]]]; try done.
  injection H2 as ->. injection H3 as ->.
  unfold row_item, scores_of, row_get in E. cbn in E.
  destruct ((s0 :: rest) !! argmax_scan 0%nat s0 1%nat rest) as [score|]; [|done].
  cbn in E. injection E as <- <-.
  do 5 eexists. split; [reflexivity|]. split.
  - apply (Hadd (fmul cx W - fdiv (fmul wn W) 2)%Q). by apply Hpos.
  - apply (Hadd (fmul cy H - fdiv (fmul hn H) 2)%Q). by apply Hpos.
Qed.

(** The theorem on [half_pixel_row] and a 100x100 image, in exact
    arithmetic. *)
Lemma decoded_box_is_ordered_witness :
  exists (a b c d : Z) (score : Q),
    VTuple [VInt 12; VInt 25; VInt 12; VInt 25; VFloat (7 # 10)]
    = VTuple [VInt a; VInt b; VInt c; VInt d; VFloat score]
    /\ a <= b /\ c <= d.
Proof.
  apply (decoded_box_is_ordered 100 100 half_pixel_row 0
           (VTuple [VInt 12; VInt 25; VInt 12; VInt 25; VFloat (7 # 10)])
           (1 # 8) (1 # 8));
    try reflexivity; try (intros p q L; exact L);
    intros L; vm_compute in L; discriminate.
Defined.

(** * Further properties of the Suppressor *)

Lemma remove_single {K : Type} (row : K) (all_data : list value) (nt st : Q) :
  remove_overlapping_items [(row, all_data)] nt st
  = (kept ← suppress_row nt st all_data; Ok [(row, kept)]).
Proof.
  unfold remove_overlapping_items. cbn [traverse].
  by destruct (suppress_row nt st all_data).
Qed.

(** X7.  The keys are treated independently of one another: in the set
    returned, the list of a key is the list that the method returns when it
    is run on that key alone. *)
Theorem suppressor_treats_keys_independently (K : Type)
    (data_pack out : DataPack K) (nms_threshold score_threshold : Q)
    (i : nat) (row : K) (all_data : list value) :
  remove_overlapping_items data_pack nms_threshold score_threshold = Ok out ->
  data_pack !! i = Some (row, all_data) ->
  exists kept,
    out !! i = Some (row, kept)
    /\ remove_overlapping_items [(row, all_data)] nms_threshold score_threshold
       = Ok [(row, kept)].
Proof.
  unfold remove_overlapping_items at 1. intros E Hi.
  apply traverse_Ok in E.
  destruct (Forall2_lookup_l _ _ _ _ _ E Hi) as ([row' kept] & Ho & Hf).
  cbn beta iota in Hf.
  destruct (suppress_row nms_threshold score_threshold all_data) as [kept'|] eqn:Hk;
    [|done].
  cbn [mbind result_bind] in Hf. injection Hf as <- <-.
  exists kept'. split; [done|]. by rewrite remove_single, Hk.
Qed.

(** The theorem on the second key of scenario A'. *)
Lemma suppressor_treats_keys_independently_witness :
  exists kept,
    [(HEAD, [candidate (Box 10 50 10 50) (9 # 10);
             candidate (Box 60 90 60 90) (6 # 10)]);
     (ARMS, [])] !! 1%nat = Some (ARMS, kept)
    /\ remove_overlapping_items [(ARMS, [candidate (Box 0 10 0 10) (1 # 10)])]
         default_nms_threshold default_score_threshold
       = Ok [(ARMS, kept)].
Proof.
  apply (suppressor_treats_keys_independently IDs scenarioA' _
           default_nms_threshold default_score_threshold 1%nat ARMS
           [candidate (Box 0 10 0 10) (1 # 10)]).
  - vm_compute. reflexivity.
  - reflexivity.
Defined.

Lemma getitem_1_two_fields (x v : value) :
  getitem x 1 = Ok v -> has_two_fields x = true.
Proof. destruct x as [| |[|a [|b l]]]; done. Qed.

Lemma row_indexes_malformed (nt st : Q) (all_data : list value) :
  Exists (fun x => has_two_fields x = false) all_data ->
  exists e, row_indexes nt st all_data = Err e.
Proof.
  intros Hex. unfold row_indexes.
  destruct (traverse (fun x => getitem x 0) all_data) as [cl|e0]; [|by eexists].
  cbn [mbind result_bind].
  destruct (traverse (fun x => getitem x 1) all_data) as [sl|e1] eqn:H1;
    [|by eexists].
  exfalso. apply traverse_Ok in H1.
  apply Exists_exists in Hex as (x & Hx & Hbad).
  apply list_elem_of_lookup in Hx as [i Hi].
  destruct (Forall2_lookup_l _ _ _ _ _ H1 Hi) as (v & _ & Hv).
  apply getitem_1_two_fields in Hv. congruence.
Qed.

(** X8.  An item that is not a tuple of at least two fields makes the method
    raise, in whichever key it sits: no Detection set is returned. *)
Theorem malformed_item_raises (K : Type) (data_pack : DataPack K)
    (nms_threshold score_threshold : Q) :
  Exists (fun entry => Exists (fun x => has_two_fields x = false) (snd entry))
         data_pack ->
  exists e,
    remove_overlapping_items data_pack nms_threshold score_threshold = Err e.
Proof.
  unfold remove_overlapping_items.
  induction data_pack as [|[row all_data] dp IH]; intros Hex.
  - by apply Exists_nil in Hex.
  - cbn [traverse].
    destruct (suppress_row nms_threshold score_threshold all_data) as [kept|e']
      eqn:Hk; cbn [mbind result_bind]; [|by eexists].
    apply Exists_cons in Hex as [Hhead|Htail].
    + cbn [snd] in Hhead.
      destruct (row_indexes_malformed nms_threshold score_threshold _ Hhead)
        as [e He].
      unfold suppress_row in Hk. by rewrite He in Hk.
    + destruct (IH Htail) as [e He]. rewrite He. by exists e.
Qed.

(** The theorem on a set whose second key holds an item of one field. *)
Lemma malformed_item_raises_witness :
  exists e,
    remove_overlapping_items one_field_pack default_nms_threshold
      default_score_threshold = Err e.
Proof.
  apply (malformed_item_raises IDs one_field_pack default_nms_threshold
           default_score_threshold).
  apply Exists_cons_tl, Exists_cons_hd, Exists_cons_hd. reflexivity.
Defined.

(** * Further properties of the Extractor *)

Lemma py_slice_in_bounds {A : Type} (l : list A) (lo hi : nat) :
  (lo <= hi <= length l)%nat ->
  py_slice l (Z.of_nat lo) (Z.of_nat hi) = take (hi - lo) (drop lo l).
Proof.
  intros Hb. unfold py_slice, slice_bound. cbn zeta.
  destruct (Z.ltb_spec (Z.of_nat lo) 0); [lia|].
  destruct (Z.ltb_spec (Z.of_nat hi) 0); [lia|].
  rewrite !Z.min_l by lia.
  replace (Z.to_nat (Z.of_nat hi - Z.of_nat lo)) with (hi - lo)%nat by lia.
  by rewrite Nat2Z.id.
Qed.

Lemma slice_lookup {A : Type} (l : list A) (lo hi k : nat) :
  (k < hi - lo)%nat -> take (hi - lo) (drop lo l) !! k = l !! (lo + k)%nat.
Proof. intros Hk. rewrite lookup_take_lt by done. apply lookup_drop. Qed.

Lemma lookup_map {A B : Type} (f : A -> B) (l : list A) (i : nat) :
  map f l !! i = f <$> l !! i.
Proof.
  revert i. induction l as [|a l IH]; intros [|i]; simpl; done.
Qed.

(** X10.  For a box that lies inside a rectangular image the crop has
    y_max - y_min rows of x_max - x_min pixels, and its pixel at row [r],
    column [k] is the pixel of the image at row y_min + r, column
    x_min + k. *)
Theorem crop_in_bounds (img : image) (width y0 y1 x0 x1 : nat) :
  rectangular img width ->
  (y0 <= y1 <= length img)%nat -> (x0 <= x1 <= width)%nat ->
  length (crop img (Z.of_nat y0) (Z.of_nat y1) (Z.of_nat x0) (Z.of_nat x1))
  = (y1 - y0)%nat
  /\ rectangular (crop img (Z.of_nat y0) (Z.of_nat y1) (Z.of_nat x0) (Z.of_nat x1))
       (x1 - x0)
  /\ forall r k : nat,
       (r < y1 - y0)%nat -> (k < x1 - x0)%nat ->
       crop img (Z.of_nat y0) (Z.of_nat y1) (Z.of_nat x0) (Z.of_nat x1) !! r
         ≫= (fun row => row !! k)
       = img !! (y0 + r)%nat ≫= (fun row => row !! (x0 + k)%nat).
Proof.
  intros Hrect Hy Hx. unfold crop. rewrite py_slice_in_bounds by done.
  assert (Hrows : Forall (fun row => length row = width)
                    (take (y1 - y0) (drop y0 img))).
  { by apply Forall_take, Forall_drop. }
  split; [|split].
  - rewrite length_map, length_take_le; [done|]. rewrite length_drop. lia.
  - unfold rectangular. apply List.Forall_map.
    eapply Forall_impl; [exact Hrows|]. intros row Hrow. cbv beta in Hrow |- *.
    rewrite py_slice_in_bounds by lia.
    rewrite length_take_le; [done|]. rewrite length_drop. lia.
  - intros r k Hr Hk. unfold image in *.
    rewrite lookup_map.
    rewrite slice_lookup by done.
    destruct (img !! (y0 + r)%nat) as [row|] eqn:Hrow; [|done].
    cbn. rewrite py_slice_in_bounds.
    + by apply slice_lookup.
    + rewrite (Forall_lookup_1 _ _ _ _ Hrect Hrow). lia.
Qed.

(** The theorem on the box (2, 5, 1, 4) of a 6x8 image. *)
Lemma crop_in_bounds_witness :
  length (crop (gradient 6 8) (Z.of_nat 1) (Z.of_nat 4) (Z.of_nat 2) (Z.of_nat 5))
  = (4 - 1)%nat
  /\ rectangular (crop (gradient 6 8) (Z.of_nat 1) (Z.of_nat 4) (Z.of_nat 2) (Z.of_nat 5))
       (5 - 2)
  /\ forall r k : nat,
       (r < 4 - 1)%nat -> (k < 5 - 2)%nat ->
       crop (gradient 6 8) (Z.of_nat 1) (Z.of_nat 4) (Z.of_nat 2) (Z.of_nat 5) !! r
         ≫= (fun row => row !! k)
       = gradient 6 8 !! (1 + r)%nat ≫= (fun row => row !! (2 + k)%nat).
Proof.
  apply (crop_in_bounds (gradient 6 8) 8 1 4 2 5).
  - repeat constructor.
  - simpl. lia.
  - lia.
Defined.

Example crop_in_bounds_gradient :
  crop (gradient 6 8) 1 3 2 5
  = [[(1, 2, 0); (1, 3, 0); (1, 4, 0)]; [(2, 2, 0); (2, 3, 0); (2, 4, 0)]].
Proof. reflexivity. Qed.

(** X11.  A negative bound counts from the far edge: on an axis of length
    [n], the bound [-k] with 0 < k <= n is the bound [n - k], for the first
    and for the second bound of the rows and, in a rectangular image, of
    the columns. *)
Theorem negative_bound_counts_from_far_edge (img : image) (width : nat)
    (k y0 y1 x0 x1 : Z) :
  rectangular img width ->
  0 < k ->
  (k <= Z.of_nat (length img) ->
     crop img (- k) y1 x0 x1 = crop img (Z.of_nat (length img) - k) y1 x0 x1
     /\ crop img y0 (- k) x0 x1 = crop img y0 (Z.of_nat (length img) - k) x0 x1)
  /\ (k <= Z.of_nat width ->
     crop img y0 y1 (- k) x1 = crop img y0 y1 (Z.of_nat width - k) x1
     /\ crop img y0 y1 x0 (- k) = crop img y0 y1 x0 (Z.of_nat width - k)).
Proof.
  intros Hrect Hk.
  assert (Hb : forall n : nat, k <= Z.of_nat n ->
                 slice_bound (Z.of_nat n) (- k)
                 = slice_bound (Z.of_nat n) (Z.of_nat n - k)).
  { intros n Hn. unfold slice_bound.
    destruct (Z.ltb_spec (- k) 0), (Z.ltb_spec (Z.of_nat n - k) 0); lia. }
  split; intros Hn.
  - unfold crop, py_slice. cbn zeta. by rewrite (Hb _ Hn).
  - unfold crop. split; apply map_ext_Forall;
      (eapply Forall_impl; [by apply Forall_take, Forall_drop, Hrect|]);
      intros row Hrow; cbv beta in Hrow |- *;
      unfold py_slice; cbn zeta; rewrite Hrow; by rewrite (Hb _ Hn).
Qed.

(** The theorem on a 6x8 image and the bound -2. *)
Lemma negative_bound_counts_from_far_edge_witness :
  (2 <= Z.of_nat (length (gradient 6 8)) ->
     crop (gradient 6 8) (- 2) 6 0 8
     = crop (gradient 6 8) (Z.of_nat (length (gradient 6 8)) - 2) 6 0 8
     /\ crop (gradient 6 8) 0 (- 2) 0 8
        = crop (gradient 6 8) 0 (Z.of_nat (length (gradient 6 8)) - 2) 0 8)
  /\ (2 <= Z.of_nat 8 ->
     crop (gradient 6 8) 0 6 (- 2) 8 = crop (gradient 6 8) 0 6 (Z.of_nat 8 - 2) 8
     /\ crop (gradient 6 8) 0 6 0 (- 2) = crop (gradient 6 8) 0 6 0 (Z.of_nat 8 - 2)).
Proof.
  apply (negative_bound_counts_from_far_edge (gradient 6 8) 8 2 0 6 0 8).
  - repeat constructor.
  - lia.
Defined.

(** X12.  A box with no negative coordinate whose far edge is not beyond
    its near edge gives an empty crop: no rows when y_max <= y_min, rows
    without pixels when x_max <= x_min.  Nothing is raised by the slicing. *)
Theorem inverted_box_gives_empty_crop (img : image) (y0 y1 x0 x1 : Z) :
  0 <= y0 -> 0 <= y1 -> 0 <= x0 -> 0 <= x1 ->
  (y1 <= y0 -> crop img y0 y1 x0 x1 = [])
  /\ (x1 <= x0 -> Forall (fun row => row = []) (crop img y0 y1 x0 x1)).
Proof.
  intros Hy0 Hy1 Hx0 Hx1.
  assert (Hs : forall (A : Type) (l : list A) lo hi,
                 0 <= lo -> 0 <= hi -> hi <= lo -> py_slice l lo hi = []).
  { intros A l lo hi Hlo Hhi Hle. unfold py_slice, slice_bound. cbn zeta.
    destruct (Z.ltb_spec lo 0), (Z.ltb_spec hi 0); try lia.
    replace (Z.to_nat _) with 0%nat by lia. done. }
  split; intros Hle.
  - unfold crop. by rewrite Hs.
  - unfold crop. apply List.Forall_map, Forall_forall. intros row _. by apply Hs.
Qed.

(** The theorem on the box (5, 2, 4, 1) of a 6x8 image. *)
Lemma inverted_box_gives_empty_crop_witness :
  (1 <= 4 -> crop (gradient 6 8) 4 1 5 2 = [])
  /\ (2 <= 5 -> Forall (fun row => row = []) (crop (gradient 6 8) 4 1 5 2)).
Proof.
  apply (inverted_box_gives_empty_crop (gradient 6 8) 4 1 5 2); lia.
Defined.

Lemma extract_keys_counts (K : Type) (img : image)
    (data_pack : DataPack K) (segments : list (K * list image)) :
  extract_image_segments img data_pack = Ok segments ->
  map fst segments = map fst data_pack
  /\ Forall2 (fun s entry => fst s = fst entry
                             /\ length (snd s) = length (snd entry))
             segments data_pack.
Proof.
  unfold extract_image_segments. revert segments.
  induction data_pack as [|[key items] dp IH]; intros segments; cbn [traverse].
  - intros [= <-]. split; constructor.
  - destruct (traverse (extract_segment img) items) as [segs|] eqn:Hs;
      cbn [mbind result_bind]; [|done].
    destruct (traverse _ dp) as [rest|]; cbn [mbind result_bind]; [|done].
    intros [= <-]. destruct (IH rest eq_refl) as [Hk Hl].
    split; [cbn [map fst]; by rewrite Hk|].
    constructor; [|done]. cbn [fst snd]. split; [done|].
    by apply traverse_length in Hs.
Qed.

(** X9.  When the Extractor returns, the dict it returns has the keys of the
    Detection set in the same order, and every key is bound to one segment
    per item of its list (a key with an empty list keeps its key, bound to
    an empty list). *)
Theorem extractor_keeps_keys_and_counts (K : Type) (img : image)
    (data_pack : DataPack K) (segments : list (K * list image)) :
  extract_image_segments img data_pack = Ok segments ->
  map fst segments = map fst data_pack
  /\ Forall2 (fun s entry => fst s = fst entry
                             /\ length (snd s) = length (snd entry))
             segments data_pack.
Proof. apply extract_keys_counts. Qed.

(** The theorem on scenario A' and a blank 100x100 image. *)
Lemma extractor_keeps_keys_and_counts_witness :
  map fst [(HEAD, [blank 30 30; blank 40 40; blank 40 40]); (ARMS, [blank 10 10])]
  = map fst scenarioA'
  /\ Forall2 (fun s entry => fst s = fst entry
                             /\ length (snd s) = length (snd entry))
       [(HEAD, [blank 30 30; blank 40 40; blank 40 40]); (ARMS, [blank 10 10])]
       scenarioA'.
Proof.
  apply (extractor_keeps_keys_and_counts IDs (blank 100 100) scenarioA').
  vm_compute. reflexivity.
Defined.

(** X13.  The Extractor reads of an item nothing but the first four fields
    of its first field.  Either the item is a tuple whose first field is a
    tuple that starts with four integers x0, x1, y0, y1, and the segment is
    the colour conversion of [image[y0:y1, x0:x1]], whatever else the item
    holds; or the method raises [TypeError] or [IndexError]. *)
Theorem extract_segment_cases (img : image) (data : value) :
  (exists (x0 x1 y0 y1 : Z) (more rest : list value),
     data = VTuple (VTuple (VInt x0 :: VInt x1 :: VInt y0 :: VInt y1 :: more) :: rest)
     /\ extract_segment img data = cvtColor_BGR2RGB (crop img y0 y1 x0 x1))
  \/ extract_segment img data = Err TypeError
  \/ extract_segment img data = Err IndexError.
Proof.
  destruct data as [z|q|[|zone rest]];
    [right; left; reflexivity|right; left; reflexivity
    |right; right; reflexivity|].
  destruct zone as [z|q|fields];
    [right; left; reflexivity|right; left; reflexivity|].
  destruct fields as [|f0 [|f1 [|f2 [|f3 more]]]];
    try (right; right; reflexivity);
    try (destruct f2; (right; right; reflexivity) || (right; left; reflexivity)).
  destruct f2 as [y0| |]; try (right; left; reflexivity).
  destruct f3 as [y1| |]; try (right; left; reflexivity).
  destruct f0 as [x0| |]; try (right; left; reflexivity).
  destruct f1 as [x1| |]; try (right; left; reflexivity).
  left. exists x0, x1, y0, y1, more, rest. split; reflexivity.
Qed.

Lemma submseteq_forallb {A : Type} (f : A -> bool) (l1 l2 : list A) :
  l1 ⊆+ l2 -> forallb f l2 = true -> forallb f l1 = true.
Proof.
  intros Hsub H2. apply Is_true_true, forallb_True.
  apply Is_true_true, forallb_True in H2.
  rewrite Forall_forall in H2 |- *. intros x Hx. apply H2.
  destruct (submseteq_Permutation _ _ Hsub) as [k Hk].
  rewrite Hk. apply elem_of_app. by left.
Qed.

(** X14.  Suppressor and Extractor compose on a Detection set of the
    documented shape, for thresholds that are not negative: the Suppressor
    returns a set of the same shape, and whenever the Extractor returns on
    it, the segments come under the keys of the original set, in order, and
    no key has more segments than it had candidates. *)
Theorem suppressor_then_extractor (K : Type) (img : image) (data_pack : DataPack K)
    (nms_threshold score_threshold : Q) :
  well_shaped_pack data_pack = true ->
  (0 <= nms_threshold)%Q -> (0 <= score_threshold)%Q ->
  exists kept : DataPack K,
    remove_overlapping_items data_pack nms_threshold score_threshold = Ok kept
    /\ well_shaped_pack kept = true
    /\ forall segments,
         extract_image_segments img kept = Ok segments ->
         map fst segments = map fst data_pack
         /\ Forall2 (fun s entry => (length (snd s) <= length (snd entry))%nat)
                    segments data_pack.
Proof.
  intros Hshape Hnt Hst.
  assert (Hthr : thresholds_ok score_threshold nms_threshold = true)
    by (by apply thresholds_ok_nonneg).
  assert (Hkept : exists kept : DataPack K,
            remove_overlapping_items data_pack nms_threshold score_threshold = Ok kept
            /\ map fst kept = map fst data_pack
            /\ Forall2 (fun o i => snd o ⊆+ snd i) kept data_pack).
  { revert Hshape. unfold well_shaped_pack, remove_overlapping_items.
    induction data_pack as [|[row all_data] dp IH]; cbn [forallb traverse snd].
    - intros _. exists []. repeat split. constructor.
    - intros [Hrow Hdp]%andb_prop.
      destruct (well_shaped_traverse _ Hrow) as [cs Hcs].
      destruct (suppress_row_selects nms_threshold score_threshold _ _ Hthr Hcs)
        as (kept & Hk & Hsub).
      destruct (IH Hdp) as (out & Ho & Hkeys & Hlists).
      exists ((row, kept) :: out).
      rewrite Hk. cbn [mbind result_bind]. rewrite Ho. cbn [mbind result_bind].
      split; [done|]. split; [cbn [map fst]; by rewrite Hkeys|].
      by constructor. }
  destruct Hkept as (kept & Hk & Hkeys & Hsub).
  exists kept. split; [done|]. split.
  - clear Hk Hkeys. unfold well_shaped_pack in *.
    induction Hsub as [|[r1 l1] [r2 l2] kept' dp' Hl _ IH]; [done|].
    cbn [forallb snd] in *. apply andb_prop in Hshape as [H2 Hdp].
    apply andb_true_intro. split; [by eapply submseteq_forallb|by apply IH].
  - intros segments Hseg.
    destruct (extract_keys_counts _ _ _ _ Hseg) as [Hsk Hsl].
    split; [by rewrite Hsk|]. clear Hk Hkeys Hseg Hsk Hshape.
    revert segments Hsl.
    induction Hsub as [|[r1 l1] [r2 l2] kept' dp' Hl _ IH]; intros segments Hsl.
    + inversion Hsl. constructor.
    + inversion Hsl as [|s ? segs ? [_ Hlen] Hrest]; subst.
      constructor; [|by apply IH]. cbn [snd] in *. rewrite Hlen.
      by apply submseteq_length.
Qed.

(** The theorem on scenario A' and a blank 100x100 image. *)
Lemma suppressor_then_extractor_witness :
  exists kept : DataPack IDs,
    remove_overlapping_items scenarioA' default_nms_threshold default_score_threshold
    = Ok kept
    /\ well_shaped_pack kept = true
    /\ forall segments,
         extract_image_segments (blank 100 100) kept = Ok segments ->
         map fst segments = map fst scenarioA'
         /\ Forall2 (fun s entry => (length (snd s) <= length (snd entry))%nat)
                    segments scenarioA'.
Proof.
  apply (suppressor_then_extractor IDs (blank 100 100) scenarioA'
           default_nms_threshold default_score_threshold);
    [reflexivity | intros L; vm_compute in L; discriminate
    | intros L; vm_compute in L; discriminate].
Defined.
